(** * react-hooks-lib: useDebounce and useLocalStorage

    A shallow embedding of the two stateful hooks of the library, as
    they are listed in TUTORIAL.md (src/hooks/useDebounce.ts and
    src/hooks/useLocalStorage.ts), together with the part of the host
    they run on: React's state cell and effect slot of the hook, the
    timer table behind setTimeout / clearTimeout, window.localStorage,
    the 'storage' listeners of window and the console.

    The hooks are generic in their payload; what the platform provides
    (Object.is on the payload, JSON.parse / JSON.stringify, calling a
    function value, the storage area) is an interface the model is
    parametric in.  Module [Mock] instantiates it the way the test-suite
    mocks it, so that everything can be run on concrete inputs. *)

From Stdlib Require Import ZArith Lia Bool.
From Stdlib Require Import DecimalString DecimalZ.
From stdpp Require Import base list strings gmap.

Open Scope Z_scope.

(* ===================================================================== *)
(** * Part I: the model                                                  *)
(* ===================================================================== *)

(** ** useDebounce *)

Module Debounce.

Section Model.
(** The payload type [T] of [useDebounce<T>]: a type of data (a
    function handed to [useState] or to its setter would be called by
    React).  React compares the dependencies of an effect with
    Object.is; on the payload this is the equality of [T] (identity,
    for objects). *)
Context {T : Type} `{EqDecision T}.

(** *** The timer table of the host *)

(** The only callback the hook ever schedules is the closure
    [() => { setDebouncedValue(value); }]; it is represented by the
    [value] it captured. *)
Record Timer := mkTimer {
  handle : nat;
  due : Z;
  callback : T
}.

Record Host := mkHost {
  now : Z;                (* virtual clock, in ms *)
  timers : list Timer;    (* pending timers, earliest first *)
  nextHandle : nat
}.

(** Timers are kept in firing order: by due time, and among equal due
    times in the order they were scheduled. *)
Fixpoint enqueue (t : Timer) (ts : list Timer) : list Timer :=
  match ts with
  | [] => [t]
  | t' :: rest =>
      if due t' <=? due t then t' :: enqueue t rest else t :: ts
  end.

(** The delay a timer really gets, as the timers the test-suite runs
    on compute it (and as Node does for the upper end): the host keeps
    delays in 32 bits, signed; a delay above [TIMEOUT_MAX] is not
    honoured and counts as 1, a delay below 0 counts as 0.  Delays are
    whole numbers of milliseconds. *)
Definition TIMEOUT_MAX : Z := 2147483647.

Definition timeout (delay : Z) : Z :=
  if TIMEOUT_MAX <? delay then 1 else Z.max 0 delay.

(** [setTimeout(cb, delay)]: the callback never runs inside the call. *)
Definition setTimeout (cb : T) (delay : Z) (h : Host) : nat * Host :=
  let t := mkTimer (nextHandle h) (now h + timeout delay) cb in
  (nextHandle h,
   mkHost (now h) (enqueue t (timers h)) (S (nextHandle h))).

Definition clearTimeout (id : nat) (h : Host) : Host :=
  mkHost (now h)
         (filter (fun t => handle t ≠ id) (timers h))
         (nextHandle h).

(** *** The hook instance *)

(** The effect slot: the dependency array [[value, delay]] of the last
    run of the effect and the [handler] its cleanup closes over. *)
Record Effect := mkEffect {
  deps : T * Z;
  handler : nat
}.

(** [debouncedValue] is the cell of [useState<T>(value)]; [effect] is
    [None] once the component is unmounted. *)
Record Fiber := mkFiber {
  debouncedValue : T;
  effect : option Effect
}.

Record State := mkState {
  fiber : Fiber;
  host : Host
}.

(** The body of the effect:
    [const handler = setTimeout(() => { setDebouncedValue(value); }, delay);
     return () => { clearTimeout(handler); };] *)
Definition runEffect (value : T) (delay : Z) (h : Host) : Effect * Host :=
  let '(handler, h') := setTimeout value delay h in
  (mkEffect (value, delay) handler, h').

Definition cleanup (e : Effect) (h : Host) : Host :=
  clearTimeout (handler e) h.

(** [useEffect(effect, [value, delay])]: the effect runs after the first
    render, and again, after the cleanup of its previous run, whenever
    [[value, delay]] changed. *)
Definition useEffect (value : T) (delay : Z) (previous : option Effect)
    (h : Host) : Effect * Host :=
  match previous with
  | None => runEffect value delay h
  | Some e =>
      if decide (deps e = (value, delay)) then (e, h)
      else runEffect value delay (cleanup e h)
  end.

(** One call of the hook, on the instance [f] of the previous render
    ([None] on the first one): [useState<T>(value)] initialises the
    cell with [value] on the first render and keeps it afterwards; the
    hook returns [debouncedValue]. *)
Definition useDebounce (value : T) (delay : Z) (f : option Fiber)
    (h : Host) : T * State :=
  let debouncedValue :=
    match f with
    | Some f => debouncedValue f
    | None => value
    end in
  let '(e, h') := useEffect value delay (f ≫= effect) h in
  (debouncedValue, mkState (mkFiber debouncedValue (Some e)) h').

Definition mount (value : T) (delay : Z) (h : Host) : State :=
  snd (useDebounce value delay None h).

(** Only a mounted component renders again. *)
Definition rerender (value : T) (delay : Z) (s : State) : State :=
  match effect (fiber s) with
  | None => s
  | Some _ => snd (useDebounce value delay (Some (fiber s)) (host s))
  end.

(** What the hook returned at the last render, or would return now. *)
Definition output (s : State) : T := debouncedValue (fiber s).

Definition unmount (s : State) : State :=
  match effect (fiber s) with
  | None => s
  | Some e =>
      mkState (mkFiber (debouncedValue (fiber s)) None)
              (cleanup e (host s))
  end.

(** A timer that fires runs [setDebouncedValue(value)].  The model
    writes the cell whether or not the component is still mounted, so
    that the absence of late updates rests on [clearTimeout] alone.
    The re-render that follows has the same [[value, delay]] and runs
    no effect. *)
Definition fire (f : Fiber) (t : Timer) : Fiber :=
  mkFiber (callback t) (effect f).

(** The event loop reaches time [now + dt]: every timer due by then
    fires, in order, and leaves the table. *)
Definition advanceTimersByTime (dt : Z) (s : State) : State :=
  let now' := now (host s) + Z.max 0 dt in
  let ready := filter (fun t => due t ≤ now') (timers (host s)) in
  let later := filter (fun t => ¬ due t ≤ now') (timers (host s)) in
  mkState (foldl fire (fiber s) ready)
          (mkHost now' later (nextHandle (host s))).

Inductive Event :=
| Rerender (value : T) (delay : Z)
| Advance (dt : Z)
| Unmount.

Definition step (s : State) (ev : Event) : State :=
  match ev with
  | Rerender value delay => rerender value delay s
  | Advance dt => advanceTimersByTime dt s
  | Unmount => unmount s
  end.

Definition run (s : State) (evs : list Event) : State := foldl step s evs.

Definition idle : Host := mkHost 0 [] 0%nat.

(** *** The debounce contract, in the words of the specification *)

(** The input as the consumer feeds it: a new value, or time passing. *)
Inductive Input :=
| Change (value : T)
| Wait (dt : Z).

Definition toEvent (d : Z) (i : Input) : Event :=
  match i with
  | Change value => Rerender value d
  | Wait dt => Advance dt
  end.

(** The change points of the input, most recent first, each with the
    time it was observed at; feeding the value the input already has
    is no change. *)
Record Timeline := mkTimeline {
  clock : Z;
  changes : list (Z * T)
}.

Definition current (v0 : T) (tl : Timeline) : T :=
  match changes tl with
  | [] => v0
  | (_, v) :: _ => v
  end.

Definition observe (v0 : T) (tl : Timeline) (i : Input) : Timeline :=
  match i with
  | Change value =>
      if decide (current v0 tl = value) then tl
      else mkTimeline (clock tl) ((clock tl, value) :: changes tl)
  | Wait dt => mkTimeline (clock tl + Z.max 0 dt) (changes tl)
  end.

Definition timeline (v0 : T) (ins : list Input) : Timeline :=
  foldl (observe v0) (mkTimeline 0 [(0, v0)]) ins.

(** "The last input value that remained unchanged for at least [d]":
    the most recent change point whose value was still the input [d]
    after it was observed (until the next change, or until now);
    "until the first window elapses, the initial observed value". *)
Fixpoint lastStable (d : Z) (hist : list (Z * T)) (upto : Z) (v0 : T) : T :=
  match hist with
  | [] => v0
  | (t, v) :: older =>
      if d <=? upto - t then v else lastStable d older t v0
  end.

Definition specOutput (d : Z) (v0 : T) (ins : list Input) : T :=
  let tl := timeline v0 ins in
  lastStable d (changes tl) (clock tl) v0.

(** The change point [(t, v)] of [hist] was not replaced before [d]
    elapsed: the change that followed it (the last of the [newer]
    ones), or else the present, is at least [d] later. *)
Definition replacedAt (newer : list (Z * T)) (upto : Z) : Z :=
  match last newer with
  | Some (t', _) => t'
  | None => upto
  end.

Definition Settled (d : Z) (hist : list (Z * T)) (upto : Z) (v : T)
  : Prop :=
  ∃ newer t older,
    hist = newer ++ (t, v) :: older ∧ d ≤ replacedAt newer upto - t.

(** *** Invariants of the runs *)

(** Every pending timer belongs to the current run of the effect. *)
Definition Owned (s : State) : Prop :=
  ∀ t, t ∈ timers (host s) →
       ∃ e, effect (fiber s) = Some e ∧ handle t = handler e.

(** Unmounted, with nothing left to fire. *)
Definition Dead (s : State) : Prop :=
  effect (fiber s) = None ∧ timers (host s) = [].

(** For the most recent change point [(t, v)]: the effect last ran for
    [v], and its timer is pending exactly as long as [v] has not been
    the input for [d]. *)
Definition Pending (d : Z) (tl : Timeline) (e : Effect) (ts : list Timer)
  : Prop :=
  match changes tl with
  | [] => False
  | (t, v) :: _ =>
      deps e = (v, d) ∧ t ≤ clock tl ∧
      ts = if decide (clock tl < t + d)
           then [mkTimer (handler e) (t + d) v] else []
  end.

(** The state of the hook follows the timeline of its input. *)
Record Tracks (d : Z) (v0 : T) (s : State) (tl : Timeline) : Prop :=
  mkTracks {
    tracks_clock : now (host s) = clock tl;
    tracks_output : output s = lastStable d (changes tl) (clock tl) v0;
    tracks_effect :
      ∃ e, effect (fiber s) = Some e ∧ Pending d tl e (timers (host s))
  }.

(** At most one timer is pending, for the latest [[value, delay]] the
    effect ran for, and it is due within that delay; once it is gone
    the output is that value. *)
Definition Latest (s : State) : Prop :=
  match effect (fiber s) with
  | None => timers (host s) = []
  | Some e =>
      (timers (host s) = [] ∧ debouncedValue (fiber s) = fst (deps e)) ∨
      (∃ due, timers (host s) = [mkTimer (handler e) due (fst (deps e))] ∧
              due ≤ now (host s) + Z.max 0 (snd (deps e)))
  end.

(** The output and the values of the pending timers are among [seen]. *)
Definition Seen (seen : list T) (s : State) : Prop :=
  output s ∈ seen ∧ ∀ t, t ∈ timers (host s) → callback t ∈ seen.

(** The values a run feeds to the hook. *)
Definition inputs (evs : list Event) : list T :=
  omap (fun ev => match ev with
                  | Rerender value _ => Some value
                  | _ => None
                  end) evs.

End Model.

Arguments Timer : clear implicits.
Arguments Host : clear implicits.
Arguments Fiber : clear implicits.
Arguments State : clear implicits.
Arguments Event : clear implicits.
Arguments Input : clear implicits.
Arguments Timeline : clear implicits.

End Debounce.

(** ** useLocalStorage *)

Module LocalStorage.

(** *** Exceptions, and the platform the hook is parametric in *)

Inductive Exn :=
| SyntaxError          (* JSON.parse on malformed text *)
| TypeError            (* JSON.stringify on a cyclic value, a bad call *)
| QuotaExceededError   (* localStorage.setItem on a full store *)
| SecurityError        (* localStorage access denied *)
| ReferenceError       (* window is not defined *)
| UserError (msg : string).

Inductive Outcome (A : Type) :=
| Return (a : A)
| Throw (e : Exn).
Arguments Return {A} a.
Arguments Throw {A} e.

(** [Val] is the universe of run-time values the hook is used at (the
    type parameter [T] and the updater functions [(val: T) => T] live
    in it: [value instanceof Function] is a test at run time).
    [JSON_stringify] returns [None] where JSON.stringify returns
    undefined.  [getItem] returns [None] for null.  Two facts of JSON
    are part of the interface: a JSON text is never empty (JSON.parse
    throws on the empty string), and what JSON.parse returns is data,
    never a function. *)
Class Host := {
  Val : Type;
  instanceofFunction : Val → bool;
  call : Val → Val → Outcome Val;
  JSON_parse : string → Outcome Val;
  JSON_stringify : Val → Outcome (option string);
  Storage : Type;
  getItem : Storage → string → Outcome (option string);
  setItem : Storage → string → string → Outcome Storage;
  JSON_parse_empty : ∀ v, JSON_parse "" ≠ Return v;
  JSON_parse_data :
    ∀ text v, JSON_parse text = Return v → instanceofFunction v = false
}.

Section Model.
Context `{Host}.

(** *** The world the hook runs in *)

(** A registered 'storage' listener: the closure [handleStorageChange]
    made by one run of the effect, with the [key] it captured. *)
Record Listener := mkListener {
  listenerId : nat;
  listenerKey : string
}.

Record Window := mkWindow {
  localStorage : Storage;
  listeners : list Listener;
  nextListener : nat
}.

Inductive LogLevel := LevelLog | LevelWarn.

Inductive LogArg :=
| ArgString (s : string)
| ArgError (e : Exn).

Record LogEntry := mkLogEntry {
  level : LogLevel;
  args : list LogArg
}.

Inductive StorageOp :=
| OpGetItem (key : string)
| OpSetItem (key : string) (raw : string).

(** [window] is [None] where [typeof window === 'undefined'].
    [console] and [storageOps] are in chronological order.
    [storedValue] is the cell of [useState<T>], [None] before the
    first render; [subscription] is the effect slot: the dependency
    [[key]] of its last run and the listener its cleanup removes. *)
Record World := mkWorld {
  window : option Window;
  console : list LogEntry;
  storageOps : list StorageOp;
  storedValue : option Val;
  subscription : option (string * nat)
}.

(** *** Computations: state and exceptions *)

Definition M (A : Type) : Type := World → Outcome A * World.

Definition ret {A} (a : A) : M A := fun w => (Return a, w).

Definition throw {A} (e : Exn) : M A := fun w => (Throw e, w).

Definition bind {A B} (m : M A) (k : A → M B) : M B :=
  fun w =>
    match m w with
    | (Return a, w') => k a w'
    | (Throw e, w') => (Throw e, w')
    end.

(** [try { body } catch (error) { handler }]: what [body] did to the
    world before it threw stays done. *)
Definition try_catch {A} (body : M A) (handler : Exn → M A) : M A :=
  fun w =>
    match body w with
    | (Return a, w') => (Return a, w')
    | (Throw e, w') => handler e w'
    end.

Definition lift {A} (o : Outcome A) : M A := fun w => (o, w).

End Model.

Declare Scope hook_scope.
Delimit Scope hook_scope with hook.
Notation "'let*' x ':=' m 'in' k" := (bind m (fun x => k))
  (at level 10, x name, m at level 100, k at level 200) : hook_scope.
Notation "m '>>' k" := (bind m (fun _ => k))
  (at level 90, right associativity) : hook_scope.

Section Hook.
Context `{Host}.
Open Scope hook_scope.

(** *** Host operations *)

Definition typeof_window_undefined : M bool :=
  fun w => (Return (match window w with Some _ => false | None => true end),
            w).

Definition logStorageOp (op : StorageOp) : M unit :=
  fun w => (Return tt,
            mkWorld (window w) (console w) (storageOps w ++ [op])
                    (storedValue w) (subscription w)).

Definition setLocalStorage (win : Window) (st : Storage) : M unit :=
  fun w => (Return tt,
            mkWorld (Some (mkWindow st (listeners win) (nextListener win)))
                    (console w) (storageOps w)
                    (storedValue w) (subscription w)).

(** [window.localStorage.getItem(key)] *)
Definition window_localStorage_getItem (key : string) : M (option string) :=
  fun w =>
    match window w with
    | None => throw ReferenceError w
    | Some win =>
        (logStorageOp (OpGetItem key) >>
         lift (getItem (localStorage win) key)) w
    end.

(** [window.localStorage.setItem(key, raw)] *)
Definition window_localStorage_setItem (key raw : string) : M unit :=
  fun w =>
    match window w with
    | None => throw ReferenceError w
    | Some win =>
        (logStorageOp (OpSetItem key raw) >>
         let* st := lift (setItem (localStorage win) key raw) in
         setLocalStorage win st) w
    end.

(** [console.log(error)] *)
Definition console_log (error : Exn) : M unit :=
  fun w => (Return tt,
            mkWorld (window w)
                    (console w ++ [mkLogEntry LevelLog [ArgError error]])
                    (storageOps w) (storedValue w) (subscription w)).

Definition writeStoredValue (v : Val) : M unit :=
  fun w => (Return tt,
            mkWorld (window w) (console w) (storageOps w)
                    (Some v) (subscription w)).

(** The setter of the state cell, as React defines it
    ([basicStateReducer]): an argument that is a function is an
    updater, called on the state so far; any other argument is the new
    state.  An updater that throws does so when React renders the
    component, not in the caller of the setter; the cell is left as it
    is. *)
Definition basicStateReducer (state : option Val) (action : Val)
  : option Val :=
  if instanceofFunction action then
    match state with
    | Some prev =>
        match call action prev with
        | Return next => Some next
        | Throw _ => state
        end
    | None => state
    end
  else Some action.

Definition setStoredValue (v : Val) : M unit :=
  fun w => (Return tt,
            mkWorld (window w) (console w) (storageOps w)
                    (basicStateReducer (storedValue w) v)
                    (subscription w)).

(** [useState<T>(initializer)]: the initializer runs on the first
    render only, and what it returns is the first state. *)
Definition useState (initializer : M Val) : M Val :=
  fun w =>
    match storedValue w with
    | Some v => (Return v, w)
    | None => (let* v := initializer in writeStoredValue v >> ret v) w
    end.

(** The setter argument is handed to the store as a DOMString:
    undefined becomes the text "undefined". *)
Definition toDOMString (r : option string) : string :=
  match r with
  | Some s => s
  | None => "undefined"
  end.

(** [item ? a : b] on [string | null]: null is falsy, and so is the
    empty string. *)
Definition truthy (item : string) : bool := negb (String.eqb item "").

(** *** The hook *)

(** The lazy initializer passed to [useState]. *)
Definition initialState (key : string) (initialValue : Val) : M Val :=
  let* undef := typeof_window_undefined in
  if undef : bool then ret initialValue
  else
    try_catch
      (let* item := window_localStorage_getItem key in
       match item with
       | Some item =>
           if truthy item then lift (JSON_parse item) else ret initialValue
       | None => ret initialValue
       end)
      (fun error => console_log error >> ret initialValue).

(** The [setValue] closure of one render: it closes over [key] and
    over the [storedValue] of that render. *)
Record SetValue := mkSetValue {
  closureKey : string;
  closureStoredValue : Val
}.

(** [value instanceof Function ? value(storedValue) : value] *)
Definition valueToStore (value storedValue : Val) : Outcome Val :=
  if instanceofFunction value then call value storedValue
  else Return value.

Definition setValue (c : SetValue) (value : Val) : M unit :=
  try_catch
    (let* valueToStore := lift (valueToStore value (closureStoredValue c)) in
     setStoredValue valueToStore >>
     let* undef := typeof_window_undefined in
     if undef : bool then ret tt
     else
       let* raw := lift (JSON_stringify valueToStore) in
       window_localStorage_setItem (closureKey c) (toDOMString raw))
    (fun error => console_log error).

(** What a render returns: [[storedValue, setValue]]. *)
Definition useLocalStorage (key : string) (initialValue : Val)
  : M (Val * SetValue) :=
  let* storedValue := useState (initialState key initialValue) in
  ret (storedValue, mkSetValue key storedValue).

(** *** The 'storage' subscription *)

Record StorageEvent := mkStorageEvent {
  eventKey : option string;    (* null for localStorage.clear() *)
  newValue : option string     (* null for a removed entry *)
}.

Definition handleStorageChange (key : string) (e : StorageEvent) : M unit :=
  match eventKey e, newValue e with
  | Some k, Some raw =>
      if String.eqb k key then
        try_catch
          (let* v := lift (JSON_parse raw) in setStoredValue v)
          (fun error => console_log error)
      else ret tt
  | _, _ => ret tt
  end.

Definition setListeners (ls : list Listener) (next : nat) : M unit :=
  fun w =>
    match window w with
    | None => throw ReferenceError w
    | Some win =>
        (Return tt,
         mkWorld (Some (mkWindow (localStorage win) ls next))
                 (console w) (storageOps w)
                 (storedValue w) (subscription w))
    end.

Definition setSubscription (s : option (string * nat)) : M unit :=
  fun w => (Return tt,
            mkWorld (window w) (console w) (storageOps w)
                    (storedValue w) s).

(** [window.addEventListener('storage', handleStorageChange)], for the
    closure that captured [key]; the result names that closure. *)
Definition window_addEventListener (key : string) : M nat :=
  fun w =>
    match window w with
    | None => throw ReferenceError w
    | Some win =>
        (setListeners
           (listeners win ++ [mkListener (nextListener win) key])
           (S (nextListener win)) >>
         ret (nextListener win)) w
    end.

(** [window.removeEventListener('storage', handleStorageChange)] *)
Definition window_removeEventListener (id : nat) : M unit :=
  fun w =>
    match window w with
    | None => throw ReferenceError w
    | Some win =>
        setListeners
          (filter (fun l => listenerId l ≠ id) (listeners win))
          (nextListener win) w
    end.

(** The body of the effect, and its cleanup. *)
Definition runEffect (key : string) : M unit :=
  let* id := window_addEventListener key in
  setSubscription (Some (key, id)).

Definition cleanup (id : nat) : M unit :=
  window_removeEventListener id >> setSubscription None.

(** After a commit: the effect runs on mount and whenever [[key]]
    changed, after the cleanup of its previous run. *)
Definition commitEffects (key : string) : M unit :=
  fun w =>
    match subscription w with
    | None => runEffect key w
    | Some (k, id) =>
        if String.eqb k key then ret tt w
        else (cleanup id >> runEffect key) w
    end.

Definition unmount : M unit :=
  fun w =>
    match subscription w with
    | None => ret tt w
    | Some (_, id) => cleanup id w
    end.

(** The host delivers a storage event to every registered listener. *)
Definition dispatchStorageEvent (e : StorageEvent) : M unit :=
  fun w =>
    match window w with
    | None => ret tt w
    | Some win =>
        foldr (fun l rest => handleStorageChange (listenerKey l) e >> rest)
              (ret tt) (listeners win) w
    end.

(** A render of the component by a renderer that commits: the call of
    the hook, then the effects.  The effect of the hook is not guarded:
    where there is no window, [window.addEventListener] throws
    ReferenceError at the commit, after the hook has returned, and the
    world is the one the call of the hook left.  (Rendering on a
    server commits nothing: it is [useLocalStorage] alone.) *)
Definition render (key : string) (initialValue : Val)
  : M (Val * SetValue) :=
  let* r := useLocalStorage key initialValue in
  commitEffects key >> ret r.

Definition final {A} (r : Outcome A * World) : World := snd r.

Definition browser (st : Storage) : World :=
  mkWorld (Some (mkWindow st [] 0%nat)) [] [] None None.

Definition server : World := mkWorld None [] [] None None.

(** A world no hook has run in yet: a browser with the given storage
    area, or a server. *)
Definition fresh (st : option Storage) : World :=
  match st with
  | Some st => browser st
  | None => server
  end.

(** What can happen to a hook instance: its component renders, a
    consumer calls a [setValue] it was handed, the host delivers a
    storage event, the component unmounts. *)
Inductive Action :=
| Render (key : string) (initialValue : Val)
| CallSetValue (c : SetValue) (value : Val)
| Deliver (e : StorageEvent)
| Teardown.

Definition act (a : Action) : M unit :=
  match a with
  | Render key initialValue => render key initialValue >> ret tt
  | CallSetValue c value => setValue c value
  | Deliver e => dispatchStorageEvent e
  | Teardown => unmount
  end.

Definition perform (w : World) (a : Action) : World := final (act a w).

Definition runActions (w : World) (acts : list Action) : World :=
  foldl perform w acts.

(** *** Invariants of the runs *)

(** The part of the world the subscription lives in. *)
Definition wiring (w : World)
  : option (list Listener) * option (string * nat) :=
  (listeners <$> window w, subscription w).

(** A computation that leaves the subscription alone. *)
Definition Frames {A} (m : M A) : Prop :=
  ∀ w, wiring (final (m w)) = wiring w.

(** The listeners of the window are those of the hook instance: the
    closure of the last run of its effect, if it is subscribed. *)
Definition Wired (w : World) : Prop :=
  match wiring w with
  | (Some ls, Some (k, id)) => ls = [mkListener id k]
  | (Some ls, None) => ls = []
  | (None, sub) => sub = None
  end.

End Hook.

End LocalStorage.

(** ** useToggle *)

Module Toggle.

(** What the setter of [useState<boolean>] is handed: a new state, or
    an updater of the state so far. *)
Inductive SetStateAction :=
| NewState (b : bool)
| Updater (f : bool → bool).

Definition basicStateReducer (state : bool) (action : SetStateAction)
  : bool :=
  match action with
  | NewState b => b
  | Updater f => f state
  end.

(** The hook instance: the state of the last render, and the actions
    the setter was handed since; React applies them, in order, at the
    next render. *)
Record Fiber := mkFiber {
  memoizedState : bool;
  queue : list SetStateAction
}.

(** [setValue(action)], the setter of the state cell. *)
Definition setValue (action : SetStateAction) (f : Fiber) : Fiber :=
  mkFiber (memoizedState f) (queue f ++ [action]).

(** [useState<boolean>(initialValue)] *)
Definition useState (initialValue : bool) (f : option Fiber)
  : bool * Fiber :=
  match f with
  | None => (initialValue, mkFiber initialValue [])
  | Some f =>
      let value := foldl basicStateReducer (memoizedState f) (queue f) in
      (value, mkFiber value [])
  end.

(** The four callbacks; their dependency arrays are empty, so every
    render hands out the same ones. *)
Definition toggle : Fiber → Fiber := setValue (Updater negb).

Definition setTrue : Fiber → Fiber := setValue (NewState true).

Definition setFalse : Fiber → Fiber := setValue (NewState false).

Definition setValueCallback (newValue : bool) : Fiber → Fiber :=
  setValue (NewState newValue).

(** [useToggle(initialValue = false)]: the value of this render. *)
Definition useToggle (initialValue : option bool) (f : option Fiber)
  : bool * Fiber :=
  useState (default false initialValue) f.

Inductive Callback :=
| Toggle
| SetTrue
| SetFalse
| SetValue (newValue : bool).

Definition invoke (c : Callback) : Fiber → Fiber :=
  match c with
  | Toggle => toggle
  | SetTrue => setTrue
  | SetFalse => setFalse
  | SetValue newValue => setValueCallback newValue
  end.

(** A callback is called, or the component renders (with whatever
    argument for the hook). *)
Inductive Event :=
| Call (c : Callback)
| Render (initialValue : option bool).

Definition mount (initialValue : option bool) : Fiber :=
  snd (useToggle initialValue None).

Definition step (f : Fiber) (ev : Event) : Fiber :=
  match ev with
  | Call c => invoke c f
  | Render initialValue => snd (useToggle initialValue (Some f))
  end.

Definition run (f : Fiber) (evs : list Event) : Fiber := foldl step f evs.

(** What the next render returns. *)
Definition value (f : Fiber) : bool := fst (useToggle None (Some f)).

(** The calls of a run, in order, and what each does to a boolean. *)
Definition calls (evs : list Event) : list Callback :=
  omap (fun ev => match ev with
                  | Call c => Some c
                  | Render _ => None
                  end) evs.

Definition apply (b : bool) (c : Callback) : bool :=
  match c with
  | Toggle => negb b
  | SetTrue => true
  | SetFalse => false
  | SetValue newValue => newValue
  end.

(** The value a callback sets whatever the state is, if it is one of
    the setters. *)
Definition sets (c : Callback) : option bool :=
  match c with
  | Toggle => None
  | SetTrue => Some true
  | SetFalse => Some false
  | SetValue newValue => Some newValue
  end.

End Toggle.

(** ** A mocked platform *)

(** The platform as the test-suite sets it up: a localStorage mock whose
    [setItem] can be made to throw, and the fragment of the JSON codec
    on undefined-free scalars (null, booleans, integers in canonical
    decimal notation); any other text is rejected. *)

Module Mock.
Import LocalStorage.

Inductive fn :=
| Increment              (* (prev: number) => prev + 1 *)
| Negate                 (* (prev: boolean) => !prev *)
| Fail (msg : string).   (* () => { throw new Error(msg) } *)

Inductive value :=
| VUndefined
| VNull
| VBool (b : bool)
| VNum (n : Z)
| VFun (f : fn).

Definition instanceofFunction (v : value) : bool :=
  match v with
  | VFun _ => true
  | _ => false
  end.

Definition call (f arg : value) : Outcome value :=
  match f, arg with
  | VFun Increment, VNum n => Return (VNum (n + 1))
  | VFun Negate, VBool b => Return (VBool (negb b))
  | VFun (Fail msg), _ => Throw (UserError msg)
  | _, _ => Throw TypeError
  end.

Definition decimal (n : Z) : string := NilZero.string_of_int (Z.to_int n).

Definition JSON_parse (text : string) : Outcome value :=
  if String.eqb text "null" then Return VNull
  else if String.eqb text "true" then Return (VBool true)
  else if String.eqb text "false" then Return (VBool false)
  else
    match NilZero.int_of_string text with
    | Some i =>
        if String.eqb (decimal (Z.of_int i)) text
        then Return (VNum (Z.of_int i))
        else Throw SyntaxError
    | None => Throw SyntaxError
    end.

Definition JSON_stringify (v : value) : Outcome (option string) :=
  match v with
  | VUndefined => Return None
  | VNull => Return (Some "null")
  | VBool true => Return (Some "true")
  | VBool false => Return (Some "false")
  | VNum n => Return (Some (decimal n))
  | VFun _ => Return None
  end.

Record MockStorage := mkMockStorage {
  items : gmap string string;
  setItemThrows : bool
}.

Definition getItem (st : MockStorage) (key : string)
  : Outcome (option string) :=
  Return (items st !! key).

Definition setItem (st : MockStorage) (key raw : string)
  : Outcome MockStorage :=
  if setItemThrows st then Throw QuotaExceededError
  else Return (mkMockStorage (<[key := raw]> (items st)) false).

(** The two facts of JSON hold of the mocked parser. *)
Lemma JSON_parse_empty (v : value) : JSON_parse "" ≠ Return v.
Proof. discriminate. Qed.

Lemma JSON_parse_data (text : string) (v : value) :
  JSON_parse text = Return v → instanceofFunction v = false.
Proof.
  unfold JSON_parse.
  repeat match goal with
         | |- context [if ?b then _ else _] => destruct b
         | |- context [match ?o with Some _ => _ | None => _ end] =>
             destruct o
         end;
    intros [= <-] || discriminate; reflexivity.
Qed.

#[export] Instance host : Host := {|
  Val := value;
  LocalStorage.instanceofFunction := instanceofFunction;
  LocalStorage.call := call;
  LocalStorage.JSON_parse := JSON_parse;
  LocalStorage.JSON_stringify := JSON_stringify;
  Storage := MockStorage;
  LocalStorage.getItem := getItem;
  LocalStorage.setItem := setItem;
  LocalStorage.JSON_parse_empty := JSON_parse_empty;
  LocalStorage.JSON_parse_data := JSON_parse_data
|}.

(** The values and stores of the mock, at the types of the interface. *)
Definition num (n : Z) : Val := VNum n.

Definition updater (f : fn) : Val := VFun f.

Definition store (entries : list (string * string)) : Storage :=
  mkMockStorage (list_to_map entries) false.

Definition fullStore (entries : list (string * string)) : Storage :=
  mkMockStorage (list_to_map entries) true.

(** The hook on the key "counter", rendered once in a browser whose
    store holds "5" for it. *)
Definition counterWorld : World :=
  runActions (fresh (Some (store [("counter", "5")])))
             [Render "counter" (num 0)].

Definition counterSetValue : SetValue :=
  mkSetValue "counter" (num 5).

(** The same on a store that rejects every write. *)
Definition fullWorld : World :=
  runActions (fresh (Some (fullStore [("counter", "5")])))
             [Render "counter" (num 0)].

Definition fullWindow : Window :=
  mkWindow (fullStore [("counter", "5")])
           [mkListener 0 "counter"] 1.

End Mock.

(** ** A platform where things fail *)

(** The store denies every access, and there is a value JSON.stringify
    throws on (an object that contains itself); the rest is the mocked
    platform. *)

Module Hostile.
Import LocalStorage.

Inductive value :=
| Data (v : Mock.value)
| Cyclic.

Definition instanceofFunction (v : value) : bool :=
  match v with
  | Data v => Mock.instanceofFunction v
  | Cyclic => false
  end.

Definition call (f arg : value) : Outcome value :=
  match f, arg with
  | Data f, Data arg =>
      match Mock.call f arg with
      | Return r => Return (Data r)
      | Throw e => Throw e
      end
  | _, _ => Throw TypeError
  end.

Definition JSON_parse (text : string) : Outcome value :=
  match Mock.JSON_parse text with
  | Return v => Return (Data v)
  | Throw e => Throw e
  end.

Definition JSON_stringify (v : value) : Outcome (option string) :=
  match v with
  | Data v => Mock.JSON_stringify v
  | Cyclic => Throw TypeError
  end.

Definition getItem (st : unit) (key : string) : Outcome (option string) :=
  Throw SecurityError.

Definition setItem (st : unit) (key raw : string) : Outcome unit :=
  Throw SecurityError.

Lemma hostile_parse_empty (v : value) : JSON_parse "" ≠ Return v.
Proof. discriminate. Qed.

Lemma hostile_parse_data (text : string) (v : value) :
  JSON_parse text = Return v → instanceofFunction v = false.
Proof.
  unfold JSON_parse.
  destruct (Mock.JSON_parse text) as [v'|] eqn:Hparse; [|discriminate].
  intros [= <-]. exact (Mock.JSON_parse_data text v' Hparse).
Qed.

Definition host : Host := {|
  Val := value;
  LocalStorage.instanceofFunction := instanceofFunction;
  LocalStorage.call := call;
  LocalStorage.JSON_parse := JSON_parse;
  LocalStorage.JSON_stringify := JSON_stringify;
  Storage := unit;
  LocalStorage.getItem := getItem;
  LocalStorage.setItem := setItem;
  LocalStorage.JSON_parse_empty := hostile_parse_empty;
  LocalStorage.JSON_parse_data := hostile_parse_data
|}.

(** A browser on this platform, before and after a first render. *)
Definition blank : @World host := @browser host tt.

Definition rendered : @World host :=
  @mkWorld host (Some (@mkWindow host tt [] 0%nat)) [] []
           (Some (Data (Mock.VNum 0))) None.

End Hostile.

(* ===================================================================== *)
(** * Part II: properties                                                *)
(* ===================================================================== *)

(** ** useDebounce *)

Section DebounceFacts.
Import Debounce.
Context {T : Type} `{EqDecision T}.
Implicit Types (s : State T) (h : Host T) (ts : list (Timer T)).

(** *** Every pending timer belongs to the current run of the effect *)

Lemma filter_handle_owned ts id :
  (∀ t, t ∈ ts → handle t = id) →
  filter (fun t => handle t ≠ id) ts = [].
Proof.
  induction ts as [|t ts IH]; intros Hall; [reflexivity|].
  rewrite filter_cons_False.
  - apply IH. intros t' Ht'. apply Hall. by right.
  - intros Hne. apply Hne, Hall. by left.
Qed.

Lemma cleanup_owned s e :
  Owned s → effect (fiber s) = Some e →
  timers (cleanup e (host s)) = [].
Proof.
  intros Hown He. unfold cleanup, clearTimeout; simpl.
  apply filter_handle_owned. intros t Ht.
  destruct (Hown t Ht) as (e' & He' & ->). congruence.
Qed.

(** *** The two cases of a render *)

Lemma rerender_unmounted s (value : T) (delay : Z) :
  effect (fiber s) = None → rerender value delay s = s.
Proof. intros He. unfold rerender. by rewrite He. Qed.

Lemma rerender_same s (value : T) (delay : Z) (e : Effect) :
  effect (fiber s) = Some e → deps e = (value, delay) →
  rerender value delay s = s.
Proof.
  intros He Hdeps. unfold rerender, useDebounce, useEffect.
  cbn. rewrite !He; cbn. rewrite decide_True by exact Hdeps.
  destruct s as [[dv eff] h]; simpl in *. by subst.
Qed.

Lemma rerender_changed s (value : T) (delay : Z) (e : Effect) :
  effect (fiber s) = Some e → deps e ≠ (value, delay) →
  rerender value delay s
  = mkState
      (mkFiber (debouncedValue (fiber s))
               (Some (mkEffect (value, delay) (nextHandle (host s)))))
      (mkHost (now (host s))
              (enqueue (mkTimer (nextHandle (host s))
                                (now (host s) + timeout delay) value)
                       (timers (cleanup e (host s))))
              (S (nextHandle (host s)))).
Proof.
  intros He Hdeps. unfold rerender, useDebounce, useEffect.
  cbn. rewrite !He; cbn. by rewrite decide_False by exact Hdeps.
Qed.

Lemma owned_mount (value : T) (delay : Z) :
  Owned (mount value delay idle).
Proof.
  intros t Ht. simpl in Ht. apply list_elem_of_singleton in Ht as ->.
  eexists. split; reflexivity.
Qed.

Lemma owned_rerender s (value : T) (delay : Z) :
  Owned s → Owned (rerender value delay s).
Proof.
  intros Hown.
  destruct (effect (fiber s)) as [e|] eqn:He;
    [|by rewrite rerender_unmounted].
  destruct (decide (deps e = (value, delay))) as [Hdeps|Hdeps];
    [by rewrite (rerender_same s value delay e)|].
  rewrite (rerender_changed s value delay e He Hdeps).
  rewrite (cleanup_owned s e Hown He).
  intros t Ht. simpl in Ht. apply list_elem_of_singleton in Ht as ->.
  eexists. split; reflexivity.
Qed.

Lemma effect_foldl_fire (f : Fiber T) ts :
  effect (foldl fire f ts) = effect f.
Proof.
  revert f. induction ts as [|t ts IH]; intros f; [reflexivity|].
  simpl. by rewrite IH.
Qed.

Lemma owned_advance s (dt : Z) :
  Owned s → Owned (advanceTimersByTime dt s).
Proof.
  intros Hown t Ht. simpl in Ht.
  apply list_elem_of_filter in Ht as [_ Ht].
  destruct (Hown t Ht) as (e & He & Hh).
  exists e. split; [|exact Hh]. simpl. by rewrite effect_foldl_fire.
Qed.

Lemma timers_unmount s : Owned s → timers (host (unmount s)) = [].
Proof.
  intros Hown. unfold unmount.
  destruct (effect (fiber s)) as [e|] eqn:He.
  - simpl. by apply cleanup_owned.
  - destruct (timers (host s)) as [|t ts] eqn:Hts; [reflexivity|].
    destruct (Hown t) as (e & He' & _); [rewrite Hts; by left|congruence].
Qed.

Lemma owned_unmount s : Owned s → Owned (unmount s).
Proof.
  intros Hown t Ht. rewrite (timers_unmount s Hown) in Ht.
  by apply elem_of_nil in Ht.
Qed.

Lemma owned_step s (ev : Event T) : Owned s → Owned (step s ev).
Proof.
  destruct ev; simpl;
    auto using owned_rerender, owned_advance, owned_unmount.
Qed.

Lemma owned_run s (evs : list (Event T)) : Owned s → Owned (run s evs).
Proof.
  revert s. induction evs as [|ev evs IH]; intros s Hown; [exact Hown|].
  simpl. apply IH, owned_step, Hown.
Qed.

Lemma owned_reachable (v0 : T) (d0 : Z) (evs : list (Event T)) :
  Owned (run (mount v0 d0 idle) evs).
Proof. apply owned_run, owned_mount. Qed.

(** *** After the unmount nothing is left to fire *)

Lemma dead_unmount s : Owned s → Dead (unmount s).
Proof.
  intros Hown. split; [|by apply timers_unmount].
  unfold unmount. by destruct (effect (fiber s)) eqn:He.
Qed.

Lemma dead_step s (ev : Event T) :
  Dead s → Dead (step s ev) ∧ fiber (step s ev) = fiber s.
Proof.
  intros [He Hts]. destruct ev as [value delay|dt|]; simpl.
  - rewrite rerender_unmounted by exact He. by repeat split.
  - unfold Dead, advanceTimersByTime; simpl. rewrite Hts; simpl.
    by repeat split.
  - unfold unmount. rewrite He. by repeat split.
Qed.

Lemma dead_run s (evs : list (Event T)) :
  Dead s → fiber (run s evs) = fiber s.
Proof.
  revert s. induction evs as [|ev evs IH]; intros s Hdead; [reflexivity|].
  simpl. destruct (dead_step s ev Hdead) as [Hdead' Hf].
  fold (run (step s ev) evs). by rewrite IH.
Qed.

(** *** The state of the hook follows the timeline of its input *)

(** Within the range of the host a delay is honoured as it is. *)
Lemma timeout_in_range (d : Z) :
  0 ≤ d → d ≤ TIMEOUT_MAX → timeout d = d.
Proof.
  intros Hd Hmax. unfold timeout.
  destruct (Z.ltb_spec TIMEOUT_MAX d); lia.
Qed.

Lemma timeout_le (d : Z) : 0 ≤ timeout d ∧ timeout d ≤ Z.max 0 d.
Proof.
  unfold timeout, TIMEOUT_MAX.
  destruct (Z.ltb_spec 2147483647 d); lia.
Qed.

Lemma tracks_mount (d : Z) (v0 : T) :
  0 < d → d ≤ TIMEOUT_MAX →
  Tracks d v0 (mount v0 d idle) (mkTimeline 0 [(0, v0)]).
Proof.
  intros Hd Hmax. split; simpl.
  - reflexivity.
  - unfold output; simpl. by destruct (d <=? 0 - 0).
  - eexists. split; [reflexivity|]. unfold Pending; simpl.
    repeat split; [lia|].
    rewrite decide_True by lia. rewrite timeout_in_range by lia.
    reflexivity.
Qed.

Lemma tracks_change (d : Z) (v0 : T) s tl (value : T) :
  0 < d → d ≤ TIMEOUT_MAX → Tracks d v0 s tl →
  Tracks d v0 (rerender value d s) (observe v0 tl (Change value)).
Proof.
  intros Hd Hmax [Hnow Hout (e & He & Hpend)].
  unfold Pending in Hpend. unfold observe, current.
  destruct (changes tl) as [|[t v] older] eqn:Hch; [done|].
  destruct Hpend as (Hdeps & Hle & Hts).
  destruct (decide (v = value)) as [->|Hne].
  - rewrite (rerender_same s value d e He Hdeps).
    split; [done|by rewrite Hch|].
    exists e. split; [done|]. unfold Pending. by rewrite Hch.
  - rewrite (rerender_changed s value d e He) by congruence.
    assert (Hclean : timers (cleanup e (host s)) = []).
    { unfold cleanup, clearTimeout; simpl. rewrite Hts.
      case_decide; [|reflexivity].
      rewrite filter_cons_False, filter_nil; [reflexivity|].
      simpl. by intros []. }
    rewrite Hclean. simpl.
    split; simpl.
    + exact Hnow.
    + unfold output in *; simpl.
      replace (d <=? clock tl - clock tl) with false by lia.
      by rewrite Hout.
    + eexists. split; [reflexivity|]. unfold Pending; simpl.
      repeat split; [lia|].
      rewrite decide_True by lia. rewrite timeout_in_range by lia.
      by rewrite Hnow.
Qed.

Lemma tracks_wait (d : Z) (v0 : T) s tl (dt : Z) :
  0 < d → Tracks d v0 s tl →
  Tracks d v0 (advanceTimersByTime dt s) (observe v0 tl (Wait dt)).
Proof.
  intros Hd [Hnow Hout (e & He & Hpend)].
  unfold Pending in Hpend.
  destruct (changes tl) as [|[t v] older] eqn:Hch; [done|].
  destruct Hpend as (Hdeps & Hle & Hts).
  unfold advanceTimersByTime, output in *. rewrite Hts, Hnow. simpl in Hout.
  set (now' := clock tl + Z.max 0 dt).
  assert (Hmono : clock tl ≤ now') by (unfold now'; lia).
  destruct (decide (clock tl < t + d)) as [Hlt|Hge].
  - (* the timer of [v] is pending *)
    replace (d <=? clock tl - t) with false in Hout by lia.
    destruct (decide (t + d ≤ now')) as [Hfire|Hkeep].
    + rewrite filter_cons_True, filter_nil by (simpl; lia).
      rewrite filter_cons_False, filter_nil by (simpl; lia).
      split; simpl.
      * reflexivity.
      * rewrite Hch; simpl. fold now'.
        by replace (d <=? now' - t) with true by lia.
      * exists e. split; [done|]. unfold Pending; simpl. rewrite Hch.
        fold now'. repeat split; [done|lia|].
        by rewrite decide_False by lia.
    + rewrite filter_cons_False, filter_nil by (simpl; lia).
      rewrite filter_cons_True, filter_nil by (simpl; lia).
      split; simpl.
      * reflexivity.
      * rewrite Hch; simpl. fold now'.
        by replace (d <=? now' - t) with false by lia.
      * exists e. split; [done|]. unfold Pending; simpl. rewrite Hch.
        fold now'. repeat split; [done|lia|].
        by rewrite decide_True by lia.
  - (* [v] is settled already *)
    replace (d <=? clock tl - t) with true in Hout by lia.
    rewrite !filter_nil.
    split; simpl.
    + reflexivity.
    + rewrite Hch; simpl. fold now'.
      by replace (d <=? now' - t) with true by lia.
    + exists e. split; [done|]. unfold Pending; simpl. rewrite Hch.
      fold now'. repeat split; [done|lia|].
      by rewrite decide_False by lia.
Qed.

Lemma tracks_run (d : Z) (v0 : T) (ins : list (Input T)) s tl :
  0 < d → d ≤ TIMEOUT_MAX → Tracks d v0 s tl →
  Tracks d v0 (run s (map (toEvent d) ins)) (foldl (observe v0) tl ins).
Proof.
  intros Hd Hmax. revert s tl.
  induction ins as [|i ins IH]; intros s tl Htr; [exact Htr|].
  simpl. apply IH. destruct i as [value|dt]; simpl.
  - by apply tracks_change.
  - by apply tracks_wait.
Qed.

Lemma lastStable_settled (d : Z) (hist : list (Z * T)) (upto : Z) (v0 : T) :
  lastStable d hist upto v0 = v0 ∨
  Settled d hist upto (lastStable d hist upto v0).
Proof.
  revert upto. induction hist as [|[t v] older IH]; intros upto; simpl.
  - by left.
  - destruct (d <=? upto - t) eqn:Hd.
    + right. exists [], t, older. split; [reflexivity|].
      unfold replacedAt; simpl. lia.
    + destruct (IH t) as [Hv0|(newer & t' & older' & Hhist & Hle)].
      * by left.
      * right. exists ((t, v) :: newer), t', older'.
        split; [by rewrite Hhist at 1|].
        unfold replacedAt in *. rewrite last_cons.
        by destruct (last newer) as [[]|].
Qed.

Lemma output_rerender s (value : T) (delay : Z) :
  output (rerender value delay s) = output s.
Proof.
  destruct (effect (fiber s)) as [e|] eqn:He;
    [|by rewrite rerender_unmounted].
  destruct (decide (deps e = (value, delay))) as [Hdeps|Hdeps].
  - by rewrite (rerender_same s value delay e).
  - by rewrite (rerender_changed s value delay e).
Qed.

Lemma now_rerender s (value : T) (delay : Z) :
  now (host (rerender value delay s)) = now (host s).
Proof.
  destruct (effect (fiber s)) as [e|] eqn:He;
    [|by rewrite rerender_unmounted].
  destruct (decide (deps e = (value, delay))) as [Hdeps|Hdeps].
  - by rewrite (rerender_same s value delay e).
  - by rewrite (rerender_changed s value delay e).
Qed.

(** *** The claims about useDebounce *)

(** C1 (amended): for a fixed delay [d] that the timers of the host
    honour, [0 < d ≤ TIMEOUT_MAX], and every sequence of input changes
    and waits, the output of the hook is the last input value that
    remained unchanged for at least [d], and the initial observed
    value until a first window has elapsed; in particular the output
    is the initial value or the value of a change point that was not
    replaced before [d] elapsed. *)
Theorem useDebounce_output_last_stable
    (d : Z) (v0 : T) (ins : list (Input T)) :
  0 < d →
  d ≤ TIMEOUT_MAX →
  let out := output (run (mount v0 d idle) (map (toEvent d) ins)) in
  let tl := timeline v0 ins in
  out = specOutput d v0 ins ∧
  (out = v0 ∨ Settled d (changes tl) (clock tl) out).
Proof.
  intros Hd Hmax out tl.
  assert (Hout : out = specOutput d v0 ins).
  { apply (tracks_output d v0 _ tl).
    apply tracks_run; [exact Hd|exact Hmax|]. by apply tracks_mount. }
  split; [exact Hout|].
  rewrite Hout. apply lastStable_settled.
Qed.

(** C7: an input change observed with delay 0 leaves the output as it
    was within the render that observes it; the update is a timer due
    at once, and happens at the next tick of the timers. *)
Theorem useDebounce_zero_delay_deferred
    (v0 : T) (d0 : Z) (evs : list (Event T)) (value : T) (e : Effect) :
  let s := run (mount v0 d0 idle) evs in
  effect (fiber s) = Some e →
  deps e ≠ (value, 0) →
  output (rerender value 0 s) = output s ∧
  (∃ id, timers (host (rerender value 0 s))
         = [mkTimer id (now (host s)) value]) ∧
  output (advanceTimersByTime 0 (rerender value 0 s)) = value.
Proof.
  intros s He Hdeps.
  split; [apply output_rerender|].
  assert (Hown : Owned s) by apply owned_reachable.
  assert (Hts : timers (host (rerender value 0 s))
                = [mkTimer (nextHandle (host s)) (now (host s)) value]).
  { rewrite (rerender_changed s value 0 e He Hdeps).
    rewrite (cleanup_owned s e Hown He).
    simpl. rewrite (timeout_in_range 0) by (unfold TIMEOUT_MAX; lia).
    f_equal. f_equal. lia. }
  split; [by eexists|].
  unfold advanceTimersByTime, output.
  rewrite Hts, now_rerender. simpl.
  rewrite filter_cons_True by (simpl; lia). reflexivity.
Qed.

End DebounceFacts.

(** The example of the specification: "a", then "b" at 0 and "c" at 300
    with a delay of 500; at 800 the output is "c". *)
Lemma useDebounce_output_last_stable_witness :
  0 < 500 ∧ 500 ≤ Debounce.TIMEOUT_MAX ∧
  Debounce.output
    (Debounce.run (Debounce.mount "a" 500 Debounce.idle)
       (map (Debounce.toEvent 500)
          [Debounce.Change "b"; Debounce.Wait 300;
           Debounce.Change "c"; Debounce.Wait 500]))
  = Debounce.specOutput 500 "a"
      [Debounce.Change "b"; Debounce.Wait 300;
       Debounce.Change "c"; Debounce.Wait 500].
Proof.
  split; [lia|]. split; [unfold Debounce.TIMEOUT_MAX; lia|].
  apply (useDebounce_output_last_stable 500 "a"
           [Debounce.Change "b"; Debounce.Wait 300;
            Debounce.Change "c"; Debounce.Wait 500]).
  - lia.
  - unfold Debounce.TIMEOUT_MAX. lia.
Defined.

(** C1 also fails for a delay the timers of the host do not honour:
    with a delay of 2^31 ms the timer is due after 1 ms, so that "b",
    the input for 1 ms only, is the output already. *)
Lemma useDebounce_large_delay_fires_early :
  Debounce.output
    (Debounce.run (Debounce.mount "a" 2147483648 Debounce.idle)
       (map (Debounce.toEvent 2147483648)
          [Debounce.Change "b"; Debounce.Wait 1])) = "b" ∧
  Debounce.specOutput 2147483648 "a"
    [Debounce.Change "b"; Debounce.Wait 1] = "a".
Proof. split; reflexivity. Qed.

(** C1 as stated fails for the delay 0: after "a" the input changes to
    "b"; "b" has been the input for at least 0 ms, and the output is
    still "a". *)
Lemma useDebounce_zero_delay_lags :
  Debounce.output
    (Debounce.run (Debounce.mount "a" 0 Debounce.idle)
       (map (Debounce.toEvent 0) [Debounce.Change "b"])) = "a" ∧
  Debounce.specOutput 0 "a" [Debounce.Change "b"] = "b" ∧
  Debounce.output
    (Debounce.run (Debounce.mount "a" 0 Debounce.idle)
       (map (Debounce.toEvent 0) [Debounce.Change "b"]))
  ≠ Debounce.specOutput 0 "a" [Debounce.Change "b"].
Proof. repeat split. discriminate. Qed.

Lemma useDebounce_zero_delay_deferred_witness :
  let s := Debounce.run (Debounce.mount "a" 0 Debounce.idle)
             [Debounce.Advance 0] in
  Debounce.effect (Debounce.fiber s)
    = Some (Debounce.mkEffect ("a", 0) 0%nat) ∧
  Debounce.output (Debounce.rerender "b" 0 s) = "a" ∧
  Debounce.output
    (Debounce.advanceTimersByTime 0 (Debounce.rerender "b" 0 s)) = "b".
Proof.
  intros s.
  assert (He : Debounce.effect (Debounce.fiber s)
               = Some (Debounce.mkEffect ("a", 0) 0%nat)) by reflexivity.
  assert (Hdeps : Debounce.deps (Debounce.mkEffect ("a", 0) 0%nat) ≠ ("b", 0))
    by discriminate.
  destruct (useDebounce_zero_delay_deferred "a" 0 [Debounce.Advance 0] "b"
              (Debounce.mkEffect ("a", 0) 0%nat) He Hdeps)
    as (Hout & _ & Htick).
  split; [exact He|]. split; [exact Hout|exact Htick].
Defined.

(** ** useLocalStorage *)

Section LocalStorageFacts.
Import LocalStorage.
Context `{Host}.
Open Scope hook_scope.
Implicit Types (w : World) (key : string) (c : SetValue)
               (e : StorageEvent).

(** Unfolds one call of the hook down to the host operations. *)
Ltac hook_unfold :=
  unfold useLocalStorage, useState, initialState, setValue,
    handleStorageChange, window_localStorage_getItem,
    window_localStorage_setItem, window_addEventListener,
    window_removeEventListener, setListeners, setSubscription,
    logStorageOp, setLocalStorage, console_log, setStoredValue,
    writeStoredValue,
    typeof_window_undefined, try_catch, bind, lift, ret, throw, final;
  simpl.

(** *** The first render *)

Lemma truthy_parsed (raw : string) (v : Val) :
  JSON_parse raw = Return v → truthy raw = true.
Proof.
  intros Hparse. unfold truthy.
  destruct (String.eqb_spec raw "") as [->|]; [|reflexivity].
  by destruct (JSON_parse_empty v).
Qed.

Lemma useLocalStorage_server key (initialValue : Val) w :
  storedValue w = None → window w = None →
  useLocalStorage key initialValue w
  = (Return (initialValue, mkSetValue key initialValue),
     mkWorld None (console w) (storageOps w) (Some initialValue)
             (subscription w)).
Proof. intros Hsv Hwin. destruct w; simplify_eq/=. reflexivity. Qed.

Lemma useLocalStorage_absent key (initialValue : Val) w (win : Window) :
  storedValue w = None → window w = Some win →
  getItem (localStorage win) key = Return None →
  useLocalStorage key initialValue w
  = (Return (initialValue, mkSetValue key initialValue),
     mkWorld (Some win) (console w) (storageOps w ++ [OpGetItem key])
             (Some initialValue) (subscription w)).
Proof.
  intros Hsv Hwin Hget. destruct w; simplify_eq/=.
  hook_unfold. by rewrite Hget.
Qed.

Lemma useLocalStorage_stored key (initialValue : Val) w (win : Window)
    (raw : string) (v : Val) :
  storedValue w = None → window w = Some win →
  getItem (localStorage win) key = Return (Some raw) →
  JSON_parse raw = Return v →
  useLocalStorage key initialValue w
  = (Return (v, mkSetValue key v),
     mkWorld (Some win) (console w) (storageOps w ++ [OpGetItem key])
             (Some v) (subscription w)).
Proof.
  intros Hsv Hwin Hget Hparse. destruct w; simplify_eq/=.
  hook_unfold. by rewrite Hget, (truthy_parsed raw v Hparse), Hparse.
Qed.

(** A stored text that does not parse: the initial value, and one
    [console.log(error)]; an empty text: the initial value, silently. *)
Lemma useLocalStorage_corrupt key (initialValue : Val) w (win : Window)
    (raw : string) (error : Exn) :
  storedValue w = None → window w = Some win →
  getItem (localStorage win) key = Return (Some raw) →
  JSON_parse raw = Throw error →
  useLocalStorage key initialValue w
  = (Return (initialValue, mkSetValue key initialValue),
     mkWorld (Some win)
             (console w ++
                if truthy raw
                then [mkLogEntry LevelLog [ArgError error]] else [])
             (storageOps w ++ [OpGetItem key])
             (Some initialValue) (subscription w)).
Proof.
  intros Hsv Hwin Hget Hparse. destruct w; simplify_eq/=.
  hook_unfold. rewrite Hget. destruct (truthy raw); simpl.
  - by rewrite Hparse.
  - by rewrite app_nil_r.
Qed.

Lemma useLocalStorage_returns key (initialValue : Val) w :
  ∃ cur, fst (useLocalStorage key initialValue w)
         = Return (cur, mkSetValue key cur)
         ∧ storedValue (final (useLocalStorage key initialValue w))
           = Some cur.
Proof.
  destruct w as [[win|] con ops [v|] sub]; hook_unfold;
    try by eexists.
  destruct (getItem (localStorage win) key) as [[item|]|]; simpl;
    try by eexists.
  destruct (truthy item); simpl; [|by eexists].
  destruct (JSON_parse item); simpl; by eexists.
Qed.

(** *** setValue *)

Lemma setValue_returns c (value : Val) w :
  fst (setValue c value w) = Return tt.
Proof.
  destruct w as [[win|] con ops sv sub]; hook_unfold;
    destruct (valueToStore value (closureStoredValue c)) as [v|]; simpl;
    try reflexivity.
  destruct (JSON_stringify v) as [r|]; simpl; [|reflexivity].
  by destruct (setItem (localStorage win) (closureKey c) (toDOMString r)).
Qed.

Lemma basicStateReducer_data (state : option Val) (v : Val) :
  instanceofFunction v = false → basicStateReducer state v = Some v.
Proof. intros Hv. unfold basicStateReducer. by rewrite Hv. Qed.

Lemma setValue_adopts c (value newValue : Val) w :
  valueToStore value (closureStoredValue c) = Return newValue →
  instanceofFunction newValue = false →
  storedValue (final (setValue c value w)) = Some newValue.
Proof.
  intros Hv Hdata. destruct w as [[win|] con ops sv sub]; hook_unfold;
    rewrite Hv; simpl; rewrite (basicStateReducer_data sv newValue Hdata);
    [|reflexivity].
  destruct (JSON_stringify newValue) as [r|]; simpl; [|reflexivity].
  by destruct (setItem (localStorage win) (closureKey c) (toDOMString r)).
Qed.

Lemma setValue_reduces c (value newValue : Val) w :
  valueToStore value (closureStoredValue c) = Return newValue →
  storedValue (final (setValue c value w))
  = basicStateReducer (storedValue w) newValue.
Proof.
  intros Hv. destruct w as [[win|] con ops sv sub]; hook_unfold;
    rewrite Hv; simpl; [|reflexivity].
  destruct (JSON_stringify newValue) as [r|]; simpl; [|reflexivity].
  by destruct (setItem (localStorage win) (closureKey c) (toDOMString r)).
Qed.

Lemma setValue_rejected c (value : Val) (error : Exn) w :
  valueToStore value (closureStoredValue c) = Throw error →
  storedValue (final (setValue c value w)) = storedValue w.
Proof. intros Hv. hook_unfold. by rewrite Hv. Qed.

(** *** The storage handler *)

Lemma handleStorageChange_adopts key e (raw : string) (v : Val) w :
  eventKey e = Some key → newValue e = Some raw →
  JSON_parse raw = Return v →
  handleStorageChange key e w
  = (Return tt,
     mkWorld (window w) (console w) (storageOps w) (Some v)
             (subscription w)).
Proof.
  intros Hk Hnv Hparse. destruct w; hook_unfold.
  rewrite Hk, Hnv, String.eqb_refl, Hparse; simpl.
  by rewrite (basicStateReducer_data _ v (JSON_parse_data raw v Hparse)).
Qed.

Lemma handleStorageChange_other_key key e w :
  eventKey e ≠ Some key → handleStorageChange key e w = (Return tt, w).
Proof.
  intros Hk. hook_unfold.
  destruct (eventKey e) as [k|]; [|reflexivity].
  destruct (newValue e); [|reflexivity].
  destruct (String.eqb_spec k key) as [->|]; [done|reflexivity].
Qed.

(** *** Listeners and the effect slot *)

Lemma frames_ret {A} (a : A) : Frames (ret a).
Proof. by intros w. Qed.

Lemma frames_lift {A} (o : Outcome A) : Frames (lift o).
Proof. by intros w. Qed.

Lemma frames_bind {A B} (m : M A) (k : A → M B) :
  Frames m → (∀ a, Frames (k a)) → Frames (bind m k).
Proof.
  intros Hm Hk w. specialize (Hm w). unfold bind, final in *.
  destruct (m w) as [[a|err] w']; simpl in *; [|exact Hm].
  by rewrite <- Hm, <- (Hk a w').
Qed.

Lemma frames_try_catch {A} (body : M A) (handler : Exn → M A) :
  Frames body → (∀ err, Frames (handler err)) →
  Frames (try_catch body handler).
Proof.
  intros Hb Hh w. specialize (Hb w). unfold try_catch, final in *.
  destruct (body w) as [[a|err] w']; simpl in *; [exact Hb|].
  by rewrite <- Hb, <- (Hh err w').
Qed.

Lemma frames_console_log (error : Exn) : Frames (console_log error).
Proof. by intros w. Qed.

Lemma frames_setStoredValue (v : Val) : Frames (setStoredValue v).
Proof. by intros w. Qed.

Lemma frames_typeof_window : Frames typeof_window_undefined.
Proof. by intros w. Qed.

Lemma frames_getItem key : Frames (window_localStorage_getItem key).
Proof.
  intros [[win|] con ops sv sub]; hook_unfold; [|reflexivity].
  by destruct (getItem (localStorage win) key).
Qed.

Lemma frames_setItem key (raw : string) :
  Frames (window_localStorage_setItem key raw).
Proof.
  intros [[win|] con ops sv sub]; hook_unfold; [|reflexivity].
  by destruct (setItem (localStorage win) key raw).
Qed.

Lemma frames_initialState key (initialValue : Val) :
  Frames (initialState key initialValue).
Proof.
  apply frames_bind; [apply frames_typeof_window|].
  intros [|]; [apply frames_ret|].
  apply frames_try_catch.
  - apply frames_bind; [apply frames_getItem|].
    intros [item|]; [|apply frames_ret].
    destruct (truthy item); [apply frames_lift|apply frames_ret].
  - intros err. apply frames_bind; [apply frames_console_log|].
    intros _. apply frames_ret.
Qed.

Lemma frames_useLocalStorage key (initialValue : Val) :
  Frames (useLocalStorage key initialValue).
Proof.
  apply frames_bind; [|intros a; apply frames_ret].
  intros w. unfold useState.
  destruct (storedValue w); [reflexivity|].
  revert w. apply frames_bind; [apply frames_initialState|].
  intros v. apply frames_bind; [by intros w'|].
  intros _. apply frames_ret.
Qed.

Lemma frames_setValue c (value : Val) : Frames (setValue c value).
Proof.
  apply frames_try_catch; [|apply frames_console_log].
  apply frames_bind; [apply frames_lift|]. intros v.
  apply frames_bind; [apply frames_setStoredValue|]. intros _.
  apply frames_bind; [apply frames_typeof_window|].
  intros [|]; [apply frames_ret|].
  apply frames_bind; [apply frames_lift|]. intros r.
  apply frames_setItem.
Qed.

Lemma frames_handleStorageChange key e :
  Frames (handleStorageChange key e).
Proof.
  unfold handleStorageChange.
  destruct (eventKey e) as [k|]; [|apply frames_ret].
  destruct (newValue e) as [raw|]; [|apply frames_ret].
  destruct (String.eqb k key); [|apply frames_ret].
  apply frames_try_catch; [|apply frames_console_log].
  apply frames_bind; [apply frames_lift|].
  apply frames_setStoredValue.
Qed.

Lemma frames_deliver e (ls : list Listener) :
  Frames (foldr (fun l rest => handleStorageChange (listenerKey l) e >> rest)
                (ret tt) ls).
Proof.
  induction ls as [|l ls IH]; simpl; [apply frames_ret|].
  apply frames_bind; [apply frames_handleStorageChange|]. by intros _.
Qed.

Lemma frames_dispatchStorageEvent e : Frames (dispatchStorageEvent e).
Proof.
  intros w. unfold dispatchStorageEvent.
  destruct (window w) as [win|]; [|reflexivity].
  apply frames_deliver.
Qed.

Lemma wired_frames {A} (m : M A) w :
  Frames m → Wired w → Wired (final (m w)).
Proof. intros Hm. unfold Wired. by rewrite (Hm w). Qed.

Lemma wired_browser (st : Storage) : Wired (browser st).
Proof. reflexivity. Qed.

Lemma wired_server : Wired server.
Proof. reflexivity. Qed.

Lemma wired_commitEffects key w :
  window w ≠ None → Wired w → Wired (final (commitEffects key w)).
Proof.
  destruct w as [[win|] con ops sv [[k id]|]]; [| |done..];
    intros _ Hw; unfold Wired in Hw; simpl in Hw;
    unfold commitEffects; simpl.
  - destruct (String.eqb k key); [exact Hw|].
    hook_unfold. unfold cleanup, runEffect. hook_unfold.
    rewrite Hw, filter_cons_False, filter_nil by (simpl; by intros []).
    reflexivity.
  - unfold runEffect. hook_unfold. by rewrite Hw.
Qed.

(** Without a window the commit throws and changes nothing. *)
Lemma commitEffects_no_window key w :
  window w = None → final (commitEffects key w) = w.
Proof.
  intros Hwin. destruct w as [win con ops sv [[k id]|]]; simplify_eq/=;
    unfold commitEffects; simpl.
  - by destruct (String.eqb k key).
  - reflexivity.
Qed.

Lemma wired_unmount w : Wired w → Wired (final (unmount w)).
Proof.
  destruct w as [[win|] con ops sv [[k id]|]]; unfold Wired; simpl;
    try done.
  intros Hw. unfold unmount, cleanup; hook_unfold.
  by rewrite Hw, filter_cons_False, filter_nil by (simpl; by intros []).
Qed.

Lemma unsubscribed_unmount w :
  Wired w →
  wiring (final (unmount w))
  = ((λ _, []) <$> window (final (unmount w)), None).
Proof.
  destruct w as [[win|] con ops sv [[k id]|]]; unfold Wired; simpl;
    try done.
  - intros Hw. unfold wiring; simpl.
    by rewrite Hw, filter_cons_False, filter_nil by (simpl; by intros []).
  - intros Hw. unfold wiring; simpl. by rewrite Hw.
Qed.

Lemma wired_render key (initialValue : Val) w :
  Wired w → Wired (final (render key initialValue w)).
Proof.
  intros Hw. unfold render, bind, final.
  pose proof (wired_frames (useLocalStorage key initialValue) w
                (frames_useLocalStorage key initialValue) Hw) as Hw1.
  unfold final in Hw1.
  destruct (useLocalStorage key initialValue w) as [[r|err] w1];
    simpl in *; [|exact Hw1].
  assert (Hc : Wired (final (commitEffects key w1))).
  { destruct (window w1) as [win|] eqn:Hwin.
    - apply wired_commitEffects; [by rewrite Hwin|exact Hw1].
    - by rewrite commitEffects_no_window. }
  unfold final in Hc.
  by destruct (commitEffects key w1) as [[[]|err] w2].
Qed.

Lemma wired_perform w (a : Action) : Wired w → Wired (perform w a).
Proof.
  intros Hw. destruct a as [key initialValue|c value|e|];
    unfold perform; simpl.
  - pose proof (wired_render key initialValue w Hw) as Hr.
    unfold bind, final in *.
    by destruct (render key initialValue w) as [[r|err] w1].
  - apply wired_frames; [apply frames_setValue|exact Hw].
  - apply wired_frames; [apply frames_dispatchStorageEvent|exact Hw].
  - by apply wired_unmount.
Qed.

Lemma wired_runActions w (acts : list Action) :
  Wired w → Wired (runActions w acts).
Proof.
  revert w. induction acts as [|a acts IH]; intros w Hw; [exact Hw|].
  simpl. apply IH, wired_perform, Hw.
Qed.

(** With no listener registered, a storage event reaches nothing. *)
Lemma dispatch_unsubscribed e w :
  wiring w = ((λ _, []) <$> window w, None) →
  dispatchStorageEvent e w = (Return tt, w).
Proof.
  destruct w as [[win|] con ops sv sub]; unfold wiring; simpl;
    [|reflexivity].
  intros [= Hls Hsub]. unfold dispatchStorageEvent; simpl.
  by rewrite Hls.
Qed.

Lemma deliver_unsubscribed (es : list StorageEvent) w :
  wiring w = ((λ _, []) <$> window w, None) →
  runActions w (Deliver <$> es) = w.
Proof.
  intros Hw. induction es as [|e es IH]; [reflexivity|].
  rewrite fmap_cons. unfold runActions in *.
  change (foldl perform (perform w (Deliver e)) (Deliver <$> es) = w).
  replace (perform w (Deliver e)) with w; [exact IH|].
  unfold perform; simpl. by rewrite (dispatch_unsubscribed e w Hw).
Qed.

(** A subscribed instance receives the event through its handler. *)
Lemma dispatch_subscribed e w key (id : nat) :
  Wired w → window w ≠ None → subscription w = Some (key, id) →
  dispatchStorageEvent e w
  = (handleStorageChange key e >> ret tt) w.
Proof.
  destruct w as [[win|] con ops sv sub]; [|done].
  unfold Wired; simpl. intros Hw _ ->.
  unfold dispatchStorageEvent; simpl. by rewrite Hw.
Qed.

Lemma window_subscribed w key (id : nat) :
  Wired w → subscription w = Some (key, id) → window w ≠ None.
Proof.
  destruct w as [[win|] con ops sv sub]; [done|].
  unfold Wired; simpl. by intros -> [=].
Qed.

Lemma wired_reachable (st : option Storage) (acts : list Action) :
  Wired (runActions (fresh st) acts).
Proof.
  apply wired_runActions.
  destruct st; [apply wired_browser|apply wired_server].
Qed.

(** *** The claims about useLocalStorage *)

(** C2: the first render returns [initialValue] where there is no
    window, without any call on the storage, and where the store has
    no entry for [key]; where the store holds a text that
    deserializes to [v], it returns [v] whatever [initialValue] is. *)
Theorem useLocalStorage_initial_value key (initialValue : Val) w :
  storedValue w = None →
  (window w = None →
     useLocalStorage key initialValue w
     = (Return (initialValue, mkSetValue key initialValue),
        mkWorld None (console w) (storageOps w) (Some initialValue)
                (subscription w))) ∧
  (∀ win, window w = Some win →
     getItem (localStorage win) key = Return None →
     fst (useLocalStorage key initialValue w)
     = Return (initialValue, mkSetValue key initialValue)) ∧
  (∀ win raw v, window w = Some win →
     getItem (localStorage win) key = Return (Some raw) →
     JSON_parse raw = Return v →
     fst (useLocalStorage key initialValue w)
     = Return (v, mkSetValue key v)).
Proof.
  intros Hsv. repeat split.
  - by apply useLocalStorage_server.
  - intros win Hwin Hget.
    by rewrite (useLocalStorage_absent key initialValue w win).
  - intros win raw v Hwin Hget Hparse.
    by rewrite (useLocalStorage_stored key initialValue w win raw v).
Qed.

(** C3: when the write to the store throws, [setValue] still leaves
    the new value (a value of [T]: data, not a function) in the state
    cell; [setValue] and the render of the hook return normally on
    every input. *)
Theorem setValue_survives_write_failure c (value : Val) w :
  (∀ win newValue r error,
     window w = Some win →
     valueToStore value (closureStoredValue c) = Return newValue →
     instanceofFunction newValue = false →
     JSON_stringify newValue = Return r →
     setItem (localStorage win) (closureKey c) (toDOMString r)
     = Throw error →
     storedValue (final (setValue c value w)) = Some newValue) ∧
  fst (setValue c value w) = Return tt ∧
  (∀ key initialValue,
     ∃ r, fst (useLocalStorage key initialValue w) = Return r).
Proof.
  repeat split.
  - intros win newValue r error _ Hv Hdata _ _. by apply setValue_adopts.
  - apply setValue_returns.
  - intros key initialValue.
    destruct (useLocalStorage_returns key initialValue w) as (cur & Hr & _).
    by eexists.
Qed.

(** C4: a storage event delivered to a subscribed hook instance
    replaces the value of the state cell by the deserialized payload
    when it carries the key of the instance and a text that
    deserializes; an event for another key changes nothing. *)
Theorem storage_event_for_own_key
    (st : option Storage) (acts : list Action) key (id : nat) :
  let w := runActions (fresh st) acts in
  subscription w = Some (key, id) →
  (∀ e raw v,
     eventKey e = Some key → newValue e = Some raw →
     JSON_parse raw = Return v →
     storedValue (perform w (Deliver e)) = Some v) ∧
  (∀ e, eventKey e ≠ Some key → perform w (Deliver e) = w).
Proof.
  intros w Hsub.
  assert (Hw : Wired w) by apply wired_reachable.
  assert (Hwin : window w ≠ None) by by eapply window_subscribed.
  split.
  - intros e raw v Hk Hnv Hparse. unfold perform; simpl.
    rewrite (dispatch_subscribed e w key id Hw Hwin Hsub).
    unfold bind. by rewrite (handleStorageChange_adopts key e raw v).
  - intros e Hk. unfold perform; simpl.
    rewrite (dispatch_subscribed e w key id Hw Hwin Hsub).
    unfold bind. by rewrite (handleStorageChange_other_key key e w Hk).
Qed.

(** C9: a call of [setValue] performs no call on the store, or exactly
    one: [setItem] on the key of the closure, with the serialization
    (as a DOMString) of the very value it handed to the setter of the
    state cell, which is the new state for every value that is data. *)
Theorem setValue_writes_serialization c (value : Val) w :
  let w' := final (setValue c value w) in
  storageOps w' = storageOps w ∨
  ∃ newValue r,
    valueToStore value (closureStoredValue c) = Return newValue ∧
    JSON_stringify newValue = Return r ∧
    storedValue w' = basicStateReducer (storedValue w) newValue ∧
    (instanceofFunction newValue = false → storedValue w' = Some newValue) ∧
    storageOps w'
    = storageOps w ++ [OpSetItem (closureKey c) (toDOMString r)].
Proof.
  destruct w as [[win|] con ops sv sub]; hook_unfold;
    destruct (valueToStore value (closureStoredValue c)) as [v|] eqn:Hv;
    simpl; try by left.
  destruct (JSON_stringify v) as [r|] eqn:Hr; simpl; [|by left].
  right. exists v, r.
  destruct (setItem (localStorage win) (closureKey c) (toDOMString r));
    simpl; repeat split; try done; apply basicStateReducer_data.
Qed.

(** C10 (amended): [setValue], as a render hands it out, treats every
    argument that is a function as an updater: it calls it on the
    value that render returned (the state at that render, whatever
    the state has become since) and hands the result to the setter of
    the state cell, where it is the new state when it is data; the
    argument itself is never taken as the new value. *)
Theorem setValue_function_argument
    key (initialValue cur f : Val) c w w1 (between : list Action) :
  useLocalStorage key initialValue w = (Return (cur, c), w1) →
  instanceofFunction f = true →
  let w2 := runActions w1 between in
  let w3 := perform w2 (CallSetValue c f) in
  storedValue w1 = Some cur ∧
  valueToStore f (closureStoredValue c) = call f cur ∧
  match call f cur with
  | Return r =>
      storedValue w3 = basicStateReducer (storedValue w2) r ∧
      (instanceofFunction r = false → storedValue w3 = Some r)
  | Throw _ => storedValue w3 = storedValue w2
  end.
Proof.
  intros Hrender Hf w2 w3.
  destruct (useLocalStorage_returns key initialValue w) as (cur' & Hr & Hsv).
  rewrite Hrender in Hr, Hsv. simpl in Hr, Hsv.
  injection Hr as -> ->. simpl in Hsv.
  assert (Hv : valueToStore f cur' = call f cur').
  { unfold valueToStore. by rewrite Hf. }
  split; [exact Hsv|]. split; [exact Hv|].
  unfold w3, perform; simpl.
  destruct (call f cur') as [r|err] eqn:Hcall.
  - split; [by apply setValue_reduces|by apply setValue_adopts].
  - by eapply setValue_rejected.
Qed.

End LocalStorageFacts.

(** ** Teardown *)

Section Teardown.
Context {T : Type} `{EqDecision T} `{LocalStorage.Host}.

(** C6: the unmount of a useDebounce instance leaves no timer in the
    table, and nothing that happens later changes its state cell; the
    unmount of a useLocalStorage instance leaves no listener on the
    window, and the storage events delivered later change nothing. *)
Theorem teardown_cancels_timer_and_listener
    (v0 : T) (d0 : Z) (evs later : list (Debounce.Event T))
    (st : option LocalStorage.Storage) (acts : list LocalStorage.Action)
    (es : list LocalStorage.StorageEvent) :
  let s := Debounce.unmount
             (Debounce.run (Debounce.mount v0 d0 Debounce.idle) evs) in
  let w := LocalStorage.perform
             (LocalStorage.runActions (LocalStorage.fresh st) acts)
             LocalStorage.Teardown in
  (Debounce.timers (Debounce.host s) = [] ∧
   Debounce.fiber (Debounce.run s later) = Debounce.fiber s) ∧
  (LocalStorage.listeners <$> LocalStorage.window w
   = (λ _, []) <$> LocalStorage.window w ∧
   LocalStorage.subscription w = None ∧
   LocalStorage.runActions w (LocalStorage.Deliver <$> es) = w).
Proof.
  intros s w. split.
  - pose proof (owned_reachable v0 d0 evs) as Hown.
    destruct (dead_unmount _ Hown) as [Heff Hts].
    split; [exact Hts|]. apply dead_run. by split.
  - pose proof (unsubscribed_unmount _ (wired_reachable st acts)) as Hun.
    change (LocalStorage.wiring w
          = ((λ _, []) <$> LocalStorage.window w, None)) in Hun.
    pose proof Hun as [= Hls Hsub].
    split; [exact Hls|]. split; [exact Hsub|].
    by apply deliver_unsubscribed.
Qed.

End Teardown.

(** ** Runs on the mocked platform *)

Section MockRuns.
Import LocalStorage.
Open Scope hook_scope.

Lemma useLocalStorage_initial_value_witness :
  fst (useLocalStorage "counter" (Mock.num 0) server)
  = Return (Mock.num 0, mkSetValue "counter" (Mock.num 0)) ∧
  storageOps (final (useLocalStorage "counter" (Mock.num 0) server)) = [] ∧
  fst (useLocalStorage "counter" (Mock.num 0) (browser (Mock.store [])))
  = Return (Mock.num 0, mkSetValue "counter" (Mock.num 0)) ∧
  fst (useLocalStorage "counter" (Mock.num 0)
         (browser (Mock.store [("counter", "5")])))
  = Return (Mock.num 5, mkSetValue "counter" (Mock.num 5)).
Proof.
  pose proof (useLocalStorage_initial_value "counter" (Mock.num 0) server
                eq_refl) as (Hserver & _ & _).
  pose proof (useLocalStorage_initial_value "counter" (Mock.num 0)
                (browser (Mock.store [])) eq_refl) as (_ & Habsent & _).
  pose proof (useLocalStorage_initial_value "counter" (Mock.num 0)
                (browser (Mock.store [("counter", "5")])) eq_refl)
    as (_ & _ & Hstored).
  split; [by rewrite (Hserver eq_refl)|].
  split; [by rewrite (Hserver eq_refl)|].
  split.
  - exact (Habsent _ eq_refl eq_refl).
  - exact (Hstored _ "5" (Mock.num 5) eq_refl eq_refl eq_refl).
Defined.

Lemma setValue_survives_write_failure_witness :
  window Mock.fullWorld = Some Mock.fullWindow ∧
  setItem (localStorage Mock.fullWindow) "counter" "7"
  = Throw QuotaExceededError ∧
  storedValue (final (setValue Mock.counterSetValue (Mock.num 7) Mock.fullWorld))
  = Some (Mock.num 7) ∧
  fst (setValue Mock.counterSetValue (Mock.num 7) Mock.fullWorld) = Return tt.
Proof.
  pose proof (setValue_survives_write_failure Mock.counterSetValue (Mock.num 7)
                Mock.fullWorld) as (Hfail & Hret & _).
  split; [reflexivity|]. split; [reflexivity|].
  split; [|exact Hret].
  exact (Hfail Mock.fullWindow (Mock.num 7) (Some "7") QuotaExceededError
           eq_refl eq_refl eq_refl eq_refl eq_refl).
Defined.

Lemma storage_event_for_own_key_witness :
  subscription Mock.counterWorld = Some ("counter", 0%nat) ∧
  storedValue
    (perform Mock.counterWorld
       (Deliver (mkStorageEvent (Some "counter") (Some "42"))))
  = Some (Mock.num 42) ∧
  perform Mock.counterWorld
    (Deliver (mkStorageEvent (Some "different-key") (Some "42")))
  = Mock.counterWorld.
Proof.
  pose proof (storage_event_for_own_key
                (Some (Mock.store [("counter", "5")]))
                [Render "counter" (Mock.num 0)] "counter" 0%nat eq_refl)
    as [Hown Hother].
  split; [reflexivity|]. split.
  - exact (Hown (mkStorageEvent (Some "counter") (Some "42")) "42"
             (Mock.num 42) eq_refl eq_refl eq_refl).
  - apply Hother. discriminate.
Defined.

Lemma setValue_function_argument_witness :
  let w1 := final (useLocalStorage "counter" (Mock.num 0)
                     (browser (Mock.store [("counter", "5")]))) in
  useLocalStorage "counter" (Mock.num 0)
    (browser (Mock.store [("counter", "5")]))
  = (Return (Mock.num 5, Mock.counterSetValue), w1) ∧
  storedValue
    (perform w1
       (CallSetValue Mock.counterSetValue (Mock.updater Mock.Increment)))
  = Some (Mock.num 6) ∧
  storedValue
    (perform
       (runActions w1 [CallSetValue Mock.counterSetValue (Mock.num 42)])
       (CallSetValue Mock.counterSetValue (Mock.updater Mock.Increment)))
  = Some (Mock.num 6).
Proof.
  intros w1.
  split; [reflexivity|]. split.
  - pose proof (setValue_function_argument "counter"
                  (Mock.num 0) (Mock.num 5) (Mock.updater Mock.Increment)
                  Mock.counterSetValue
                  (browser (Mock.store [("counter", "5")])) _ []
                  eq_refl eq_refl) as (_ & _ & _ & Hadopt).
    exact (Hadopt eq_refl).
  - pose proof (setValue_function_argument "counter"
                  (Mock.num 0) (Mock.num 5) (Mock.updater Mock.Increment)
                  Mock.counterSetValue
                  (browser (Mock.store [("counter", "5")])) _
                  [CallSetValue Mock.counterSetValue (Mock.num 42)]
                  eq_refl eq_refl) as (_ & _ & _ & Hadopt).
    exact (Hadopt eq_refl).
Defined.

(** C10 as stated fails once the state has changed since the render:
    the hook on "counter" was rendered with 5, a storage event then
    sets the state to 42; the [setValue] of that render, called with
    the increment, gives 6, while the increment of the current value
    is 43. *)
Lemma setValue_updater_misses_current_value :
  let w := perform Mock.counterWorld
             (Deliver (mkStorageEvent (Some "counter") (Some "42"))) in
  storedValue w = Some (Mock.num 42) ∧
  call (Mock.updater Mock.Increment) (Mock.num 42) = Return (Mock.num 43) ∧
  storedValue
    (perform w
       (CallSetValue Mock.counterSetValue (Mock.updater Mock.Increment)))
  = Some (Mock.num 6) ∧
  storedValue
    (perform w
       (CallSetValue Mock.counterSetValue (Mock.updater Mock.Increment)))
  ≠ Some (Mock.num 43).
Proof. repeat split. discriminate. Qed.

Lemma setValue_writes_serialization_witness :
  let w' := final (setValue Mock.counterSetValue
                     (Mock.updater Mock.Increment) Mock.counterWorld) in
  storageOps w'
  = storageOps Mock.counterWorld ++ [OpSetItem "counter" "6"] ∧
  storedValue w' = Some (Mock.num 6).
Proof.
  intros w'.
  destruct (setValue_writes_serialization Mock.counterSetValue
              (Mock.updater Mock.Increment) Mock.counterWorld)
    as [Hnone|(newValue & r & Hv & Hr & _ & Hcell & Hops)].
  - discriminate Hnone.
  - injection Hv as <-. injection Hr as <-.
    split; [exact Hops|exact (Hcell eq_refl)].
Defined.

(** C5: the store holds the text "invalid-json" for "test-key".  The
    first render returns the initial value and leaves the store as it
    is; what it puts on the console is one [console.log] whose only
    argument is the error: no entry is a warning, and no entry has a
    text argument that could name the key.  An empty text for the key
    gives the initial value and an empty console. *)
Theorem useLocalStorage_corrupt_entry_log :
  let w0 := browser (Mock.store [("test-key", "invalid-json")]) in
  let r := useLocalStorage "test-key" (Mock.num 0) w0 in
  fst r = Return (Mock.num 0, mkSetValue "test-key" (Mock.num 0)) ∧
  window (final r) = window w0 ∧
  console (final r) = [mkLogEntry LevelLog [ArgError SyntaxError]] ∧
  Forall (fun entry => level entry = LevelLog ∧
                       args entry = [ArgError SyntaxError])
         (console (final r)) ∧
  console
    (final (useLocalStorage "test-key" (Mock.num 0)
              (browser (Mock.store [("test-key", "")])))) = [].
Proof. repeat split. by repeat constructor. Qed.

End MockRuns.

(** ** The test-suite, replayed on the model *)

Section Replay.
Import LocalStorage.
Open Scope hook_scope.

(** useDebounce.test.ts, "should debounce value changes" *)
Example debounce_value_changes :
  let s := Debounce.rerender "updated" 500
             (Debounce.mount "initial" 500 Debounce.idle) in
  Debounce.output s = "initial" ∧
  Debounce.output (Debounce.advanceTimersByTime 400 s) = "initial" ∧
  Debounce.output
    (Debounce.run s [Debounce.Advance 400; Debounce.Advance 100])
  = "updated".
Proof. repeat split. Qed.

(** useDebounce.test.ts, "should reset timer on rapid changes" *)
Example debounce_rapid_changes :
  let s := Debounce.run (Debounce.mount "initial" 500 Debounce.idle)
             [Debounce.Rerender "change1" 500; Debounce.Advance 300;
              Debounce.Rerender "change2" 500; Debounce.Advance 300;
              Debounce.Rerender "final" 500] in
  Debounce.output s = "initial" ∧
  Debounce.output (Debounce.advanceTimersByTime 500 s) = "final".
Proof. repeat split. Qed.

(** useDebounce.test.ts, "should handle delay changes" *)
Example debounce_delay_changes :
  let s := Debounce.rerender "updated" 1000
             (Debounce.mount "test" 500 Debounce.idle) in
  Debounce.output (Debounce.advanceTimersByTime 500 s) = "test" ∧
  Debounce.output
    (Debounce.run s [Debounce.Advance 500; Debounce.Advance 500])
  = "updated".
Proof. repeat split. Qed.

(** The example of the specification: "b" at 0 and "c" at 300 with a
    delay of 500; the output is "a" up to 799 and "c" from 800 on. *)
Example debounce_spec_example :
  let s := Debounce.run (Debounce.mount "a" 500 Debounce.idle)
             [Debounce.Rerender "b" 500; Debounce.Advance 300;
              Debounce.Rerender "c" 500] in
  Debounce.output (Debounce.advanceTimersByTime 499 s) = "a" ∧
  Debounce.output (Debounce.advanceTimersByTime 500 s) = "c".
Proof. repeat split. Qed.

(** useLocalStorage.test.ts, "should support function updater pattern" *)
Example localStorage_function_updater :
  let w := perform Mock.counterWorld
             (CallSetValue Mock.counterSetValue
                (Mock.updater Mock.Increment)) in
  storedValue w = Some (Mock.num 6) ∧
  storageOps w = [OpGetItem "counter"; OpSetItem "counter" "6"].
Proof. repeat split. Qed.

(** useLocalStorage.test.ts, "should handle localStorage.setItem errors
    gracefully": the state is updated; the console gets the bare error. *)
Example localStorage_setItem_error :
  let w := perform Mock.fullWorld
             (CallSetValue Mock.counterSetValue (Mock.num 7)) in
  storedValue w = Some (Mock.num 7) ∧
  console w = [mkLogEntry LevelLog [ArgError QuotaExceededError]].
Proof. repeat split. Qed.

(** useLocalStorage.test.ts, "should cleanup storage event listener on
    unmount" *)
Example localStorage_unmount :
  listeners <$> window Mock.counterWorld = Some [mkListener 0 "counter"] ∧
  listeners <$> window (perform Mock.counterWorld Teardown) = Some [].
Proof. repeat split. Qed.

(** A committed render where there is no window: the hook returns the
    initial value, then the effect throws at the commit. *)
Example localStorage_commit_without_window :
  fst (useLocalStorage "counter" (Mock.num 0) server)
  = Return (Mock.num 0, mkSetValue "counter" (Mock.num 0)) ∧
  fst (render "counter" (Mock.num 0) server) = Throw ReferenceError ∧
  final (render "counter" (Mock.num 0) server)
  = final (useLocalStorage "counter" (Mock.num 0) server).
Proof. repeat split. Qed.

End Replay.

(* ===================================================================== *)
(** * Part III: further properties of the hooks                          *)
(* ===================================================================== *)

(** ** useDebounce *)

Section DebounceMore.
Import Debounce.
Context {T : Type} `{EqDecision T}.
Implicit Types (s : State T) (h : Host T) (ts : list (Timer T)).

(** Decides the filters of one tick over a single timer. *)
Ltac tick_filters :=
  rewrite !filter_cons, !filter_nil; simpl in *;
  repeat case_decide; try (exfalso; lia).

Lemma latest_mount (value : T) (delay : Z) : Latest (mount value delay idle).
Proof.
  right. eexists. split; [reflexivity|]. simpl.
  pose proof (timeout_le delay). lia.
Qed.

Lemma latest_rerender s (value : T) (delay : Z) :
  Latest s → Latest (rerender value delay s).
Proof.
  intros Hl.
  destruct (effect (fiber s)) as [e|] eqn:He;
    [|by rewrite rerender_unmounted].
  destruct (decide (deps e = (value, delay))) as [Hdeps|Hdeps];
    [by rewrite (rerender_same s value delay e)|].
  rewrite (rerender_changed s value delay e He Hdeps).
  assert (Hclean : timers (cleanup e (host s)) = []).
  { unfold Latest in Hl. rewrite He in Hl.
    unfold cleanup, clearTimeout; simpl.
    destruct Hl as [[-> _]|(due & -> & _)]; [reflexivity|].
    rewrite filter_cons_False, filter_nil; [reflexivity|].
    simpl. by intros []. }
  rewrite Hclean. right. eexists. split; [reflexivity|]. simpl.
  pose proof (timeout_le delay). lia.
Qed.

Lemma latest_advance s (dt : Z) : Latest s → Latest (advanceTimersByTime dt s).
Proof.
  unfold Latest, advanceTimersByTime; simpl. rewrite effect_foldl_fire.
  destruct (effect (fiber s)) as [e|]; [|by intros ->].
  intros [[-> Hout]|(due & -> & Hdue)].
  - left. by split.
  - destruct (decide (due ≤ now (host s) + Z.max 0 dt)) as [Hfire|Hkeep].
    + left. tick_filters. by split.
    + right. exists due. tick_filters. split; [reflexivity|]. lia.
Qed.

Lemma latest_unmount s : Latest s → Latest (unmount s).
Proof.
  unfold Latest, unmount.
  destruct (effect (fiber s)) as [e|] eqn:He; simpl; [|by rewrite He].
  unfold clearTimeout; simpl.
  intros [[-> _]|(due & -> & _)]; [reflexivity|].
  rewrite filter_cons_False, filter_nil; [reflexivity|].
  simpl. by intros [].
Qed.

Lemma latest_run s (evs : list (Event T)) : Latest s → Latest (run s evs).
Proof.
  revert s. induction evs as [|ev evs IH]; intros s Hl; [exact Hl|].
  simpl. apply IH. destruct ev; simpl;
    auto using latest_rerender, latest_advance, latest_unmount.
Qed.

Lemma latest_reachable (v0 : T) (d0 : Z) (evs : list (Event T)) :
  Latest (run (mount v0 d0 idle) evs).
Proof. apply latest_run, latest_mount. Qed.

(** X1: timers are replaced, never stacked: whatever the renders (new
    values, new delays), the waits and the unmount so far, at most one
    timer is pending, and it is the one of the current run of the
    effect, carrying the latest value the hook was rendered with. *)
Theorem useDebounce_single_timer
    (v0 : T) (d0 : Z) (evs : list (Event T)) :
  let s := run (mount v0 d0 idle) evs in
  (length (timers (host s)) ≤ 1)%nat ∧
  ∀ t, t ∈ timers (host s) →
       ∃ e, effect (fiber s) = Some e ∧
            handle t = handler e ∧ callback t = fst (deps e).
Proof.
  intros s. pose proof (latest_reachable v0 d0 evs) as Hl.
  fold s in Hl. unfold Latest in Hl.
  destruct (effect (fiber s)) as [e|].
  - destruct Hl as [[-> _]|(due & -> & _)].
    + split; [simpl; lia|]. intros t Ht. by apply elem_of_nil in Ht.
    + split; [simpl; lia|]. intros t Ht.
      apply list_elem_of_singleton in Ht as ->. by exists e.
  - rewrite Hl. split; [simpl; lia|]. intros t Ht. by apply elem_of_nil in Ht.
Qed.

(** X2: a render with a new value or a new delay restarts the window:
    whatever was pending is dropped, and the one timer left is for the
    new value and due [timeout delay] from now: [max 0 delay] for a
    delay the host honours, 1 ms for a delay above [TIMEOUT_MAX]. *)
Theorem useDebounce_change_restarts_window
    (v0 : T) (d0 : Z) (evs : list (Event T))
    (value : T) (delay : Z) (e : Effect) :
  let s := run (mount v0 d0 idle) evs in
  effect (fiber s) = Some e →
  deps e ≠ (value, delay) →
  timers (host (rerender value delay s))
  = [mkTimer (nextHandle (host s)) (now (host s) + timeout delay) value] ∧
  effect (fiber (rerender value delay s))
  = Some (mkEffect (value, delay) (nextHandle (host s))) ∧
  timeout delay
  = (if decide (TIMEOUT_MAX < delay) then 1 else Z.max 0 delay).
Proof.
  intros s He Hdeps.
  rewrite (rerender_changed s value delay e He Hdeps).
  rewrite (cleanup_owned s e (owned_reachable v0 d0 evs) He).
  repeat split. unfold timeout.
  destruct (Z.ltb_spec TIMEOUT_MAX delay); case_decide; lia.
Qed.

(** X3: the output settles on the input: after any history, once the
    hook is rendered with [value] and [delay] and at least
    [max 0 delay] passes with no other render, it returns [value]. *)
Theorem useDebounce_settles
    (v0 : T) (d0 : Z) (evs : list (Event T))
    (value : T) (delay dt : Z) (e : Effect) :
  let s := run (mount v0 d0 idle) evs in
  effect (fiber s) = Some e →
  Z.max 0 delay ≤ dt →
  let s' := advanceTimersByTime dt (rerender value delay s) in
  output s' = value ∧ timers (host s') = [].
Proof.
  intros s He Hdt s'.
  pose proof (latest_rerender s value delay (latest_reachable v0 d0 evs))
    as Hl.
  assert (Hdeps : ∃ e', effect (fiber (rerender value delay s)) = Some e'
                        ∧ deps e' = (value, delay)).
  { destruct (decide (deps e = (value, delay))) as [Hd|Hd].
    - rewrite (rerender_same s value delay e He Hd). by exists e.
    - rewrite (rerender_changed s value delay e He Hd). by eexists. }
  destruct Hdeps as (e' & He' & Hd').
  unfold Latest in Hl. rewrite He', Hd' in Hl. simpl in Hl.
  unfold s', advanceTimersByTime, output; simpl.
  rewrite now_rerender.
  destruct Hl as [[-> Hout]|(due & -> & Hdue)]; [by split|].
  rewrite now_rerender in Hdue. tick_filters. by split.
Qed.

Lemma output_foldl_fire (f : Fiber T) ts (seen : list T) :
  debouncedValue f ∈ seen →
  (∀ t, t ∈ ts → callback t ∈ seen) →
  debouncedValue (foldl fire f ts) ∈ seen.
Proof.
  revert f. induction ts as [|t ts IH]; intros f Hf Hts; [exact Hf|].
  simpl. apply IH.
  - simpl. apply Hts. by left.
  - intros t' Ht'. apply Hts. by right.
Qed.

Lemma seen_mono (seen seen' : list T) s :
  seen ⊆ seen' → Seen seen s → Seen seen' s.
Proof. intros Hsub [Hout Hts]. split; [by apply Hsub|]. intros t Ht. by apply Hsub, Hts. Qed.

Lemma seen_step (seen : list T) s (ev : Event T) :
  Owned s → Seen seen s → Seen (seen ++ inputs [ev]) (step s ev).
Proof.
  intros Hown Hseen. destruct ev as [value delay|dt|]; simpl.
  - destruct (effect (fiber s)) as [e|] eqn:He;
      [|rewrite rerender_unmounted by exact He;
        eapply seen_mono; [|exact Hseen]; set_solver].
    destruct (decide (deps e = (value, delay))) as [Hd|Hd].
    + rewrite (rerender_same s value delay e He Hd).
      eapply seen_mono; [|exact Hseen]. set_solver.
    + rewrite (rerender_changed s value delay e He Hd).
      rewrite (cleanup_owned s e Hown He).
      destruct Hseen as [Hout _]. split; simpl.
      * unfold output in *. simpl. set_solver.
      * intros t Ht. apply list_elem_of_singleton in Ht as ->. simpl.
        set_solver.
  - rewrite app_nil_r. destruct Hseen as [Hout Hts]. split.
    + unfold output, advanceTimersByTime; simpl.
      apply output_foldl_fire; [exact Hout|].
      intros t Ht. apply list_elem_of_filter in Ht as [_ Ht]. by apply Hts.
    + simpl. intros t Ht. apply list_elem_of_filter in Ht as [_ Ht].
      by apply Hts.
  - rewrite app_nil_r. destruct Hseen as [Hout Hts]. unfold unmount.
    destruct (effect (fiber s)) as [e|] eqn:He; [|by split].
    split; [exact Hout|]. simpl.
    intros t Ht. apply list_elem_of_filter in Ht as [_ Ht]. by apply Hts.
Qed.

Lemma seen_run (seen : list T) s (evs : list (Event T)) :
  Owned s → Seen seen s → Seen (seen ++ inputs evs) (run s evs).
Proof.
  revert seen s. induction evs as [|ev evs IH]; intros seen s Hown Hseen.
  - by rewrite app_nil_r.
  - change (run s (ev :: evs)) with (run (step s ev) evs).
    replace (seen ++ inputs (ev :: evs))
      with ((seen ++ inputs [ev]) ++ inputs evs).
    + apply IH; [by apply owned_step|by apply seen_step].
    + rewrite <- app_assoc. f_equal. unfold inputs. simpl.
      by destruct ev.
Qed.

(** X4: the hook never makes up a value: what it returns is the value
    it was mounted with or a value a later render passed to it. *)
Theorem useDebounce_output_was_input
    (v0 : T) (d0 : Z) (evs : list (Event T)) :
  output (run (mount v0 d0 idle) evs) ∈ v0 :: inputs evs.
Proof.
  apply (seen_run [v0] (mount v0 d0 idle) evs).
  - apply owned_mount.
  - split; simpl.
    + by left.
    + intros t Ht. apply list_elem_of_singleton in Ht as ->. by left.
Qed.

End DebounceMore.

Lemma useDebounce_change_restarts_window_witness :
  let s := Debounce.run (Debounce.mount "test" 500 Debounce.idle)
             [Debounce.Advance 200] in
  Debounce.timers (Debounce.host (Debounce.rerender "test" 1000 s))
  = [Debounce.mkTimer 1%nat 1200 "test"] ∧
  Debounce.timers (Debounce.host (Debounce.rerender "test" 2147483648 s))
  = [Debounce.mkTimer 1%nat 201 "test"] ∧
  Debounce.timers (Debounce.host (Debounce.rerender "test" (-5) s))
  = [Debounce.mkTimer 1%nat 200 "test"].
Proof.
  intros s. split; [|split].
  - exact (proj1 (useDebounce_change_restarts_window "test" 500
                    [Debounce.Advance 200] "test" 1000
                    (Debounce.mkEffect ("test", 500) 0%nat)
                    eq_refl ltac:(discriminate))).
  - exact (proj1 (useDebounce_change_restarts_window "test" 500
                    [Debounce.Advance 200] "test" 2147483648
                    (Debounce.mkEffect ("test", 500) 0%nat)
                    eq_refl ltac:(discriminate))).
  - exact (proj1 (useDebounce_change_restarts_window "test" 500
                    [Debounce.Advance 200] "test" (-5)
                    (Debounce.mkEffect ("test", 500) 0%nat)
                    eq_refl ltac:(discriminate))).
Defined.

Lemma useDebounce_settles_witness :
  Debounce.output
    (Debounce.advanceTimersByTime 0
       (Debounce.rerender "b" (-5)
          (Debounce.run (Debounce.mount "a" 500 Debounce.idle)
             [Debounce.Advance 100]))) = "b".
Proof.
  exact (proj1 (useDebounce_settles "a" 500 [Debounce.Advance 100] "b" (-5) 0
                  (Debounce.mkEffect ("a", 500) 0%nat)
                  eq_refl ltac:(simpl; lia))).
Defined.

(** ** useLocalStorage *)

Section LocalStorageMore.
Import LocalStorage.
Context `{Host}.
Open Scope hook_scope.
Implicit Types (w : World) (key : string) (c : SetValue)
               (e : StorageEvent).

Ltac hook_steps :=
  unfold useLocalStorage, useState, initialState, setValue,
    handleStorageChange, window_localStorage_getItem,
    window_localStorage_setItem, window_addEventListener,
    window_removeEventListener, setListeners, setSubscription,
    logStorageOp, setLocalStorage, console_log, setStoredValue,
    writeStoredValue, typeof_window_undefined, try_catch, bind, lift,
    ret, throw, final;
  simpl.

(** *** Reading the store *)

(** X5: a render never writes: it leaves the window (the store and the
    listeners) as it is; the first render makes at most one call on
    the store, [getItem] on its key, and later renders make none: they
    return the state cell and ignore [initialValue]. *)
Theorem useLocalStorage_only_reads key (initialValue : Val) w :
  let r := useLocalStorage key initialValue w in
  window (final r) = window w ∧
  match storedValue w with
  | Some v => r = (Return (v, mkSetValue key v), w)
  | None =>
      storageOps (final r) = storageOps w ∨
      storageOps (final r) = storageOps w ++ [OpGetItem key]
  end.
Proof.
  destruct w as [[win|] con ops [v|] sub]; hook_steps; try by auto.
  destruct (getItem (localStorage win) key) as [[item|]|]; simpl;
    try by auto.
  destruct (truthy item); simpl; [|by auto].
  destruct (JSON_parse item); simpl; by auto.
Qed.

(** X6: when reading the store throws (access denied), the first
    render returns [initialValue] and logs the error once. *)
Theorem useLocalStorage_read_failure
    key (initialValue : Val) w (win : Window) (error : Exn) :
  storedValue w = None → window w = Some win →
  getItem (localStorage win) key = Throw error →
  useLocalStorage key initialValue w
  = (Return (initialValue, mkSetValue key initialValue),
     mkWorld (Some win)
             (console w ++ [mkLogEntry LevelLog [ArgError error]])
             (storageOps w ++ [OpGetItem key])
             (Some initialValue) (subscription w)).
Proof.
  intros Hsv Hwin Hget. destruct w; simplify_eq/=.
  hook_steps. by rewrite Hget.
Qed.

(** *** setValue *)

(** X7: without a window [setValue] only updates the state: no call on
    a store, nothing on the console. *)
Theorem setValue_without_window c (value v : Val) w :
  window w = None →
  valueToStore value (closureStoredValue c) = Return v →
  setValue c value w
  = (Return tt,
     mkWorld None (console w) (storageOps w)
             (basicStateReducer (storedValue w) v) (subscription w)).
Proof.
  intros Hwin Hv. destruct w; simplify_eq/=. hook_steps. by rewrite Hv.
Qed.

(** X8: an updater that throws changes nothing: the state and the
    store stay as they are, no call on the store is made, the error is
    logged and does not reach the caller. *)
Theorem setValue_updater_throws c (f : Val) (error : Exn) w :
  instanceofFunction f = true →
  call f (closureStoredValue c) = Throw error →
  setValue c f w
  = (Return tt,
     mkWorld (window w)
             (console w ++ [mkLogEntry LevelLog [ArgError error]])
             (storageOps w) (storedValue w) (subscription w)).
Proof.
  intros Hf Hcall. destruct w. hook_steps.
  unfold valueToStore. by rewrite Hf, Hcall.
Qed.

(** X9: a value JSON.stringify throws on is adopted in memory all the
    same, but nothing is written: the state and the store differ from
    then on; the error is logged. *)
Theorem setValue_unserializable c (value v : Val) (error : Exn) w
    (win : Window) :
  window w = Some win →
  valueToStore value (closureStoredValue c) = Return v →
  JSON_stringify v = Throw error →
  setValue c value w
  = (Return tt,
     mkWorld (Some win)
             (console w ++ [mkLogEntry LevelLog [ArgError error]])
             (storageOps w)
             (basicStateReducer (storedValue w) v) (subscription w)).
Proof.
  intros Hwin Hv Hs. destruct w; simplify_eq/=. hook_steps.
  by rewrite Hv, Hs.
Qed.

(** X10: persistence round trip: on a store that returns what was set
    and a codec that gives [v] back, a value written by [setValue] is
    what a first render on the key returns after a reload, whatever its
    [initialValue]. *)
Theorem setValue_then_reload
    c (v initialValue : Val) w (win : Window) (raw : string)
    (st' : Storage) :
  window w = Some win →
  instanceofFunction v = false →
  JSON_stringify v = Return (Some raw) →
  setItem (localStorage win) (closureKey c) raw = Return st' →
  getItem st' (closureKey c) = Return (Some raw) →
  JSON_parse raw = Return v →
  localStorage <$> window (final (setValue c v w)) = Some st' ∧
  console (final (setValue c v w)) = console w ∧
  fst (useLocalStorage (closureKey c) initialValue (browser st'))
  = Return (v, mkSetValue (closureKey c) v).
Proof.
  intros Hwin Hdata Hs Hset Hget Hparse.
  assert (Hv : valueToStore v (closureStoredValue c) = Return v).
  { unfold valueToStore. by rewrite Hdata. }
  split; [|split].
  - destruct w; simplify_eq/=. hook_steps. by rewrite Hv, Hs; simpl; rewrite Hset.
  - destruct w; simplify_eq/=. hook_steps. by rewrite Hv, Hs; simpl; rewrite Hset.
  - by rewrite (useLocalStorage_stored (closureKey c) initialValue
                  (browser st') (mkWindow st' [] 0%nat) raw v).
Qed.

(** X11: the updater of [setValue] sees the value of the render that
    made the closure, not the latest state: whatever happened since
    that render (other [setValue] calls, storage events), calling the
    closure with [f] sets the state to [f] of the rendered value. *)
Theorem setValue_stale_closure
    key (initialValue cur f r : Val) c w w1 (between : list Action) :
  useLocalStorage key initialValue w = (Return (cur, c), w1) →
  instanceofFunction f = true →
  call f cur = Return r →
  instanceofFunction r = false →
  storedValue (perform (runActions w1 between) (CallSetValue c f)) = Some r.
Proof.
  intros Hrender Hf Hcall Hdata.
  destruct (useLocalStorage_returns key initialValue w) as (cur' & Hr & _).
  rewrite Hrender in Hr. simpl in Hr. injection Hr as -> ->.
  unfold perform; simpl. apply setValue_adopts; [|exact Hdata].
  unfold valueToStore. simpl. by rewrite Hf.
Qed.

(** *** The subscription *)

(** X12: a storage event for the key of the instance whose new value
    does not parse leaves the state as it is; the error is logged. *)
Theorem storage_event_corrupt_payload
    (st : option Storage) (acts : list Action) key (id : nat)
    e (raw : string) (error : Exn) :
  let w := runActions (fresh st) acts in
  subscription w = Some (key, id) →
  eventKey e = Some key → newValue e = Some raw →
  JSON_parse raw = Throw error →
  perform w (Deliver e)
  = mkWorld (window w)
            (console w ++ [mkLogEntry LevelLog [ArgError error]])
            (storageOps w) (storedValue w) (subscription w).
Proof.
  intros w Hsub Hk Hnv Hparse.
  assert (Hw : Wired w) by apply wired_reachable.
  assert (Hwin : window w ≠ None) by by eapply window_subscribed.
  unfold perform; simpl.
  rewrite (dispatch_subscribed e w key id Hw Hwin Hsub).
  destruct w as [win con ops sv sub]. hook_steps.
  by rewrite Hk, Hnv, String.eqb_refl, Hparse.
Qed.

(** X13: a storage event without a new value (the entry was removed in
    another tab, or the store was cleared) changes nothing: the state
    does not fall back to the initial value. *)
Theorem storage_event_removed_entry
    (st : option Storage) (acts : list Action) key (id : nat) e :
  let w := runActions (fresh st) acts in
  subscription w = Some (key, id) →
  newValue e = None →
  perform w (Deliver e) = w.
Proof.
  intros w Hsub Hnv.
  assert (Hw : Wired w) by apply wired_reachable.
  assert (Hwin : window w ≠ None) by by eapply window_subscribed.
  unfold perform; simpl.
  rewrite (dispatch_subscribed e w key id Hw Hwin Hsub).
  unfold bind, handleStorageChange, final. rewrite Hnv.
  by destruct (eventKey e).
Qed.

(** X14: a render with another key keeps the value: the store is not
    read for the new key and [initialValue] is ignored; the listener
    of the old key is replaced, so that the window holds exactly one
    listener, for the new key. *)
Theorem render_with_new_key
    (st : option Storage) (acts : list Action)
    key (initialValue v : Val) (win : Window) :
  let w := runActions (fresh st) acts in
  window w = Some win →
  storedValue w = Some v →
  let r := render key initialValue w in
  fst r = Return (v, mkSetValue key v) ∧
  storedValue (final r) = Some v ∧
  storageOps (final r) = storageOps w ∧
  localStorage <$> window (final r) = Some (localStorage win) ∧
  ∃ id, subscription (final r) = Some (key, id) ∧
        listeners <$> window (final r) = Some [mkListener id key].
Proof.
  intros w Hwin Hsv r.
  assert (Hw : Wired w) by apply wired_reachable.
  unfold r. clear r. revert Hw Hwin Hsv. generalize w. clear w.
  intros [win' con ops sv [[k id]|]] Hw Hwin Hsv; simplify_eq/=;
    unfold Wired in Hw; simpl in Hw; unfold render; hook_steps;
    unfold commitEffects; simpl.
  - destruct (String.eqb_spec k key) as [->|Hne]; simpl.
    + repeat split; try done. exists id. by rewrite Hw.
    + unfold cleanup, runEffect. hook_steps.
      repeat split; try done. eexists. split; [reflexivity|].
      by rewrite Hw, filter_cons_False, filter_nil by (simpl; by intros []).
  - unfold runEffect. hook_steps.
    repeat split; try done. eexists. split; [reflexivity|]. by rewrite Hw.
Qed.

End LocalStorageMore.

Section LocalStorageMoreRuns.
Import LocalStorage.
Open Scope hook_scope.

Lemma useLocalStorage_read_failure_witness :
  fst (@useLocalStorage Hostile.host "theme" (Hostile.Data (Mock.VNum 0))
         Hostile.blank)
  = Return (Hostile.Data (Mock.VNum 0),
            @mkSetValue Hostile.host "theme" (Hostile.Data (Mock.VNum 0))) ∧
  console (final (@useLocalStorage Hostile.host "theme"
                    (Hostile.Data (Mock.VNum 0)) Hostile.blank))
  = [mkLogEntry LevelLog [ArgError SecurityError]].
Proof.
  rewrite (@useLocalStorage_read_failure Hostile.host "theme"
             (Hostile.Data (Mock.VNum 0)) Hostile.blank
             (@mkWindow Hostile.host tt [] 0%nat) SecurityError
             eq_refl eq_refl eq_refl).
  split; reflexivity.
Defined.

Lemma setValue_without_window_witness :
  storedValue (final (setValue Mock.counterSetValue (Mock.num 7) server))
  = basicStateReducer None (Mock.num 7) ∧
  storageOps (final (setValue Mock.counterSetValue (Mock.num 7) server)) = [].
Proof.
  rewrite (setValue_without_window Mock.counterSetValue (Mock.num 7)
             (Mock.num 7) server eq_refl eq_refl).
  split; reflexivity.
Defined.

Lemma setValue_updater_throws_witness :
  final (setValue Mock.counterSetValue (Mock.updater (Mock.Fail "boom"))
           Mock.counterWorld)
  = mkWorld (window Mock.counterWorld)
            [mkLogEntry LevelLog [ArgError (UserError "boom")]]
            (storageOps Mock.counterWorld)
            (Some (Mock.num 5))
            (subscription Mock.counterWorld).
Proof.
  rewrite (setValue_updater_throws Mock.counterSetValue
             (Mock.updater (Mock.Fail "boom")) (UserError "boom")
             Mock.counterWorld eq_refl eq_refl).
  reflexivity.
Defined.

Lemma setValue_unserializable_witness :
  let c := @mkSetValue Hostile.host "theme" (Hostile.Data (Mock.VNum 0)) in
  storedValue (final (@setValue Hostile.host c Hostile.Cyclic
                        Hostile.rendered))
  = Some Hostile.Cyclic ∧
  storageOps (final (@setValue Hostile.host c Hostile.Cyclic
                       Hostile.rendered)) = [] ∧
  console (final (@setValue Hostile.host c Hostile.Cyclic Hostile.rendered))
  = [mkLogEntry LevelLog [ArgError TypeError]].
Proof.
  intros c.
  rewrite (@setValue_unserializable Hostile.host c Hostile.Cyclic
             Hostile.Cyclic TypeError Hostile.rendered
             (@mkWindow Hostile.host tt [] 0%nat) eq_refl eq_refl eq_refl).
  repeat split.
Defined.

Lemma setValue_then_reload_witness :
  fst (useLocalStorage "counter" (Mock.num 0)
         (browser (Mock.store [("counter", "7")])))
  = Return (Mock.num 7, mkSetValue "counter" (Mock.num 7)).
Proof.
  exact (proj2 (proj2
    (setValue_then_reload Mock.counterSetValue (Mock.num 7) (Mock.num 0)
       Mock.counterWorld
       (mkWindow (Mock.store [("counter", "5")]) [mkListener 0 "counter"] 1)
       "7" (Mock.store [("counter", "7")])
       eq_refl eq_refl eq_refl eq_refl eq_refl eq_refl))).
Defined.

(** Two increments through the closure of one render: 6, not 7. *)
Lemma setValue_stale_closure_witness :
  storedValue
    (perform
       (runActions
          (final (useLocalStorage "counter" (Mock.num 0)
                    (browser (Mock.store [("counter", "5")]))))
          [CallSetValue Mock.counterSetValue (Mock.updater Mock.Increment)])
       (CallSetValue Mock.counterSetValue (Mock.updater Mock.Increment)))
  = Some (Mock.num 6).
Proof.
  exact (setValue_stale_closure "counter" (Mock.num 0) (Mock.num 5)
           (Mock.updater Mock.Increment) (Mock.num 6) Mock.counterSetValue
           (browser (Mock.store [("counter", "5")])) _
           [CallSetValue Mock.counterSetValue (Mock.updater Mock.Increment)]
           eq_refl eq_refl eq_refl eq_refl).
Defined.

Lemma storage_event_corrupt_payload_witness :
  let w := perform Mock.counterWorld
             (Deliver (mkStorageEvent (Some "counter")
                                      (Some "invalid-json"))) in
  storedValue w = Some (Mock.num 5) ∧
  console w = [mkLogEntry LevelLog [ArgError SyntaxError]].
Proof.
  intros w. unfold w, Mock.counterWorld.
  rewrite (storage_event_corrupt_payload
             (Some (Mock.store [("counter", "5")]))
             [Render "counter" (Mock.num 0)] "counter" 0%nat
             (mkStorageEvent (Some "counter") (Some "invalid-json"))
             "invalid-json" SyntaxError eq_refl eq_refl eq_refl eq_refl).
  split; reflexivity.
Defined.

Lemma storage_event_removed_entry_witness :
  perform Mock.counterWorld
    (Deliver (mkStorageEvent (Some "counter") None))
  = Mock.counterWorld.
Proof.
  exact (storage_event_removed_entry
           (Some (Mock.store [("counter", "5")]))
           [Render "counter" (Mock.num 0)] "counter" 0%nat
           (mkStorageEvent (Some "counter") None) eq_refl eq_refl).
Defined.

(** The store holds "9" for "other"; the render with that key still
    returns 5 and does not read it. *)
Lemma render_with_new_key_witness :
  let w := runActions (fresh (Some (Mock.store [("counter", "5");
                                                ("other", "9")])))
             [Render "counter" (Mock.num 0)] in
  fst (render "other" (Mock.num 1) w)
  = Return (Mock.num 5, mkSetValue "other" (Mock.num 5)) ∧
  storageOps (final (render "other" (Mock.num 1) w)) = [OpGetItem "counter"] ∧
  listeners <$> window (final (render "other" (Mock.num 1) w))
  = Some [mkListener 1 "other"].
Proof.
  intros w.
  destruct (render_with_new_key
              (Some (Mock.store [("counter", "5"); ("other", "9")]))
              [Render "counter" (Mock.num 0)] "other" (Mock.num 1)
              (Mock.num 5)
              (mkWindow (Mock.store [("counter", "5"); ("other", "9")])
                        [mkListener 0 "counter"] 1)
              eq_refl eq_refl)
    as (Hr & _ & Hops & _ & _).
  split; [exact Hr|]. split; [exact Hops|reflexivity].
Defined.

End LocalStorageMoreRuns.

(** ** useToggle *)

Section ToggleFacts.
Import Toggle.
Implicit Types (f : Fiber) (c : Callback) (ev : Event).

Lemma value_queue f :
  value f = foldl basicStateReducer (memoizedState f) (queue f).
Proof. reflexivity. Qed.

Lemma value_invoke f c : value (invoke c f) = apply (value f) c.
Proof.
  rewrite !value_queue. destruct c; simpl; by rewrite foldl_app.
Qed.

Lemma value_render f (initialValue : option bool) :
  value (step f (Render initialValue)) = value f.
Proof. reflexivity. Qed.

Lemma value_run f (evs : list Event) :
  value (run f evs) = foldl apply (value f) (calls evs).
Proof.
  revert f. induction evs as [|[c|initialValue] evs IH]; intros f.
  - reflexivity.
  - change (run f (Call c :: evs)) with (run (invoke c f) evs).
    rewrite IH, value_invoke. reflexivity.
  - change (run f (Render initialValue :: evs))
      with (run (step f (Render initialValue)) evs).
    rewrite IH, value_render. reflexivity.
Qed.

Lemma foldl_toggles (b : bool) (n : nat) :
  foldl apply b (replicate n Toggle) = xorb b (Nat.odd n).
Proof.
  revert b. induction n as [|n IH]; intros b.
  - simpl. by destruct b.
  - change (foldl apply b (replicate (S n) Toggle))
      with (foldl apply (negb b) (replicate n Toggle)).
    rewrite IH, Nat.odd_succ, <- Nat.negb_odd.
    by destruct b, (Nat.odd n).
Qed.

Lemma useToggle_value_of_calls_aux
    (initialValue : option bool) (evs : list Event) :
  value (run (mount initialValue) evs)
  = foldl apply (default false initialValue) (calls evs).
Proof. rewrite value_run. by destruct initialValue. Qed.

(** X15: batching does not matter to useToggle: however the calls of
    its callbacks and the renders interleave, the value the hook
    returns next is the initial value (false by default) taken through
    the calls in order; the argument of later renders is ignored. *)
Theorem useToggle_value_of_calls
    (initialValue : option bool) (evs : list Event) :
  value (run (mount initialValue) evs)
  = foldl apply (default false initialValue) (calls evs).
Proof. apply useToggle_value_of_calls_aux. Qed.

(** X16: [toggle] called [n] times, in whatever batches, flips the
    value exactly when [n] is odd. *)
Theorem useToggle_toggle_parity
    (initialValue : option bool) (evs : list Event) (n : nat) :
  calls evs = replicate n Toggle →
  value (run (mount initialValue) evs)
  = xorb (default false initialValue) (Nat.odd n).
Proof.
  intros Hcalls. rewrite useToggle_value_of_calls_aux, Hcalls.
  apply foldl_toggles.
Qed.

(** X17: the last setter wins: after [setTrue], [setFalse] or
    [setValue(b)] and then [n] calls of [toggle], the value is what
    the setter set, flipped when [n] is odd, whatever was called
    before and however the renders fell. *)
Theorem useToggle_last_setter_wins
    (initialValue : option bool) (evs : list Event)
    (before : list Callback) c (b : bool) (n : nat) :
  sets c = Some b →
  calls evs = before ++ c :: replicate n Toggle →
  value (run (mount initialValue) evs) = xorb b (Nat.odd n).
Proof.
  intros Hsets Hcalls. rewrite useToggle_value_of_calls_aux, Hcalls.
  rewrite foldl_app. simpl. rewrite foldl_toggles.
  destruct c; simpl in *; by simplify_eq.
Qed.

End ToggleFacts.

Lemma useToggle_toggle_parity_witness :
  Toggle.value
    (Toggle.run (Toggle.mount None)
       [Toggle.Call Toggle.Toggle; Toggle.Render None;
        Toggle.Call Toggle.Toggle; Toggle.Call Toggle.Toggle])
  = true.
Proof.
  exact (useToggle_toggle_parity None
           [Toggle.Call Toggle.Toggle; Toggle.Render None;
            Toggle.Call Toggle.Toggle; Toggle.Call Toggle.Toggle]
           3 eq_refl).
Defined.

Lemma useToggle_last_setter_wins_witness :
  Toggle.value
    (Toggle.run (Toggle.mount (Some true))
       [Toggle.Call Toggle.Toggle; Toggle.Call Toggle.SetFalse;
        Toggle.Render (Some true); Toggle.Call Toggle.Toggle])
  = true.
Proof.
  exact (useToggle_last_setter_wins (Some true)
           [Toggle.Call Toggle.Toggle; Toggle.Call Toggle.SetFalse;
            Toggle.Render (Some true); Toggle.Call Toggle.Toggle]
           [Toggle.Toggle] Toggle.SetFalse false 1 eq_refl eq_refl).
Defined.
